(** * chatgpt_export_cleaner: the text normalizer, the message extractor,
      the pair builder and the filename sanitizer

    A shallow embedding of [src/chatgpt_export_cleaner.py].  Python strings
    are sequences of Unicode code points, so a string is a [list N]; values
    decoded from JSON are the inductive [json]; code that can raise returns
    a [result]. *)

From Stdlib Require Import ZArith NArith QArith Lia Ascii String.
From stdpp Require Import base list.

Set Warnings "-register-all".
Local Open Scope N_scope.

(** ** Strings *)

Abbreviation str := (list N).

(** An ASCII literal of the source as a sequence of code points. *)
Definition lit (s : string) : str :=
  List.map N_of_ascii (list_ascii_of_string s).

Arguments lit : simpl never.

Definition TAB : N := 9.
Definition LF : N := 10.
Definition CR : N := 13.
Definition SP : N := 32.
Definition DQ : N := 34.
Definition NBSP : N := 0xA0.

(** The literal the source writes between the quotes of its bullet
    replacements: the three code points U+00E2 U+20AC U+00A2. *)
Definition BULLET : str := [0xE2; 0x20AC; 0xA2].

(** [str.isspace] on one code point: the characters [str.strip()] removes. *)
Definition isspace (c : N) : bool :=
  ((9 <=? c) && (c <=? 13)) || ((28 <=? c) && (c <=? 32))
  || (c =? 0x85) || (c =? 0xA0) || (c =? 0x1680)
  || ((0x2000 <=? c) && (c <=? 0x200A))
  || (c =? 0x2028) || (c =? 0x2029) || (c =? 0x202F)
  || (c =? 0x205F) || (c =? 0x3000).

Fixpoint lstrip (s : str) : str :=
  match s with
  | [] => []
  | c :: s' => if isspace c then lstrip s' else s
  end.

Definition rstrip (s : str) : str := reverse (lstrip (reverse s)).

(** [s.strip()] *)
Definition strip (s : str) : str := rstrip (lstrip s).

Fixpoint starts_with (p s : str) : bool :=
  match p, s with
  | [], _ => true
  | _ :: _, [] => false
  | a :: p', b :: s' => (a =? b) && starts_with p' s'
  end.

(** [s.replace(old, new)]: scan from the left; where [old] starts, emit [new]
    and jump over the match ([skip] counts the characters of a match still to
    jump over), otherwise copy one character. *)
Fixpoint replace_from (old new : str) (skip : nat) (s : str) : str :=
  match s with
  | [] => []
  | c :: s' =>
    match skip with
    | S k => replace_from old new k s'
    | O => if starts_with old s
           then new ++ replace_from old new (pred (length old)) s'
           else c :: replace_from old new 0 s'
    end
  end.

Definition replace (old new s : str) : str :=
  match old with
  | [] => new ++ flat_map (fun c => c :: new) s
  | _ :: _ => replace_from old new 0 s
  end.

(** Length of the run of [c] at the front of [s]. *)
Fixpoint run_length (c : N) (s : str) : nat :=
  match s with
  | [] => O
  | x :: s' => if x =? c then S (run_length c s') else O
  end.

(** The substitution of line 64 (a run of two or more double quotes before
    [$] becomes one double quote) on a string that does not end in a line
    feed: [$] holds at the end only, and the leftmost match is the whole
    trailing run of quotes when it has two or more. *)
Definition sub_quotes_at_end (s : str) : str :=
  let k := run_length DQ (reverse s) in
  if (2 <=? k)%nat then take (length s - k) s ++ [DQ] else s.

(** The substitution of line 64 on any string: without MULTILINE, [$] holds
    at the end of the string and just before a line feed that ends it. *)
Definition sub_trailing_quotes (s : str) : str :=
  match reverse s with
  | c :: u => if c =? LF then sub_quotes_at_end (reverse u) ++ [LF]
              else sub_quotes_at_end s
  | [] => s
  end.

(** The substitution of line 65 (a run of three or more line feeds becomes
    two): of a run of line feeds the first two are kept and the rest dropped
    ([n] counts the line feeds just before [s]). *)
Fixpoint collapse_from (n : nat) (s : str) : str :=
  match s with
  | [] => []
  | c :: s' =>
    if c =? LF
    then if (n <? 2)%nat then c :: collapse_from (S n) s'
         else collapse_from (S n) s'
    else c :: collapse_from 0 s'
  end.

Definition sub_newline_runs (s : str) : str := collapse_from 0 s.

(** ** The text normalizer *)

Section Normalizer.

(** [unicodedata.normalize] with the form NFKC, from the Unicode database
    of the Python runtime. *)
Variable nfkc : str -> str.

(** Line 60. *)
Definition normalize_line_endings (s : str) : str :=
  replace [CR] [LF] (replace [CR; LF] [LF] s).

(** Line 61. *)
Definition standardize_tabs (s : str) : str :=
  replace [TAB] (lit "    ") (replace (TAB :: BULLET) BULLET s).

(** Line 62. *)
Definition standardize_bullets (s : str) : str :=
  replace (BULLET ++ lit "  ") (BULLET ++ lit " ")
    (replace (BULLET ++ [TAB]) (BULLET ++ lit " ") s).

(** Lines 60 to 66, the steps after the Unicode normalization. *)
Definition clean_rest (s : str) : str :=
  let s := normalize_line_endings s in
  let s := standardize_tabs s in
  let s := standardize_bullets s in
  let s := replace [NBSP] [SP] s in
  let s := sub_trailing_quotes (strip s) in
  let s := sub_newline_runs s in
  strip s.

Definition clean_text (s : option str) : str :=
  match s with
  | None => []
  | Some s => clean_rest (nfkc s)
  end.

End Normalizer.

(** The normalization on the fragment the examples below are written in:
    on strings over ASCII, U+00A0, U+00A2, U+00E2 and U+20AC the NFKC form
    replaces the no-break space by a space and keeps every other character. *)
Definition nfkc_latin (s : str) : str :=
  List.map (fun c => if c =? NBSP then SP else c) s.


(** ** Values decoded from JSON *)

(** What [json.loads] builds: [None], [bool], [int], [float] (a finite float
    is a rational), [str], [list] and [dict] with string keys.  A [dict] is
    the list of its items in insertion order; a lookup finds the first item
    with the key. *)
Inductive json : Type :=
| JNull
| JBool (b : bool)
| JInt (n : Z)
| JFloat (q : Q)
| JStr (s : str)
| JArr (l : list json)
| JObj (kvs : list (str * json)).

Inductive exn : Type := TypeError | AttributeError | IndexError | KeyError.

Inductive result (A : Type) : Type :=
| Ok (a : A)
| Raise (e : exn).

Arguments Ok {A} a.
Arguments Raise {A} e.

Definition bind {A B : Type} (m : result A) (k : A -> result B) : result B :=
  match m with
  | Ok a => k a
  | Raise e => Raise e
  end.

Notation "'let*' x := m 'in' k" := (bind m (fun x => k))
  (at level 10, x name, m at level 100, k at level 200).

Fixpoint str_eqb (s t : str) : bool :=
  match s, t with
  | [], [] => true
  | a :: s', b :: t' => (a =? b) && str_eqb s' t'
  | _, _ => false
  end.

Definition nonempty {A : Type} (l : list A) : bool :=
  match l with
  | [] => false
  | _ :: _ => true
  end.

Fixpoint dict_lookup (k : str) (kvs : list (str * json)) : option json :=
  match kvs with
  | [] => None
  | (k', v) :: rest => if str_eqb k k' then Some v else dict_lookup k rest
  end.

Fixpoint str_mem (k : str) (ks : list str) : bool :=
  match ks with
  | [] => false
  | k' :: rest => str_eqb k k' || str_mem k rest
  end.

(** The keys of a dict, each once, in insertion order. *)
Fixpoint dict_keys_from (seen : list str) (kvs : list (str * json)) : list str :=
  match kvs with
  | [] => []
  | (k, _) :: rest =>
    if str_mem k seen then dict_keys_from seen rest
    else k :: dict_keys_from (k :: seen) rest
  end.

Definition dict_keys (kvs : list (str * json)) : list str :=
  dict_keys_from [] kvs.

(** [bool(v)] *)
Definition truthy (v : json) : bool :=
  match v with
  | JNull => false
  | JBool b => b
  | JInt n => negb (n =? 0)%Z
  | JFloat q => negb (Qeq_bool q 0)
  | JStr s => nonempty s
  | JArr l => nonempty l
  | JObj kvs => nonempty kvs
  end.

(** [x or y] *)
Definition py_or (x y : json) : json := if truthy x then x else y.

(** [o.get(k, default)]: only a dict has the method. *)
Definition py_get (o : json) (k : str) (default : json) : result json :=
  match o with
  | JObj kvs => Ok (match dict_lookup k kvs with Some v => v | None => default end)
  | _ => Raise AttributeError
  end.

(** The numeric value of [bool], [int] and [float], which compare by it. *)
Definition num_value (v : json) : option Q :=
  match v with
  | JBool b => Some (inject_Z (if b then 1 else 0))
  | JInt n => Some (inject_Z n)
  | JFloat q => Some q
  | _ => None
  end.

(** [a == b] *)
Fixpoint py_eq (a b : json) {struct a} : bool :=
  match a, b with
  | JNull, JNull => true
  | JStr s, JStr t => str_eqb s t
  | JArr l, JArr m =>
    (fix all2 (l m : list json) {struct l} : bool :=
       match l, m with
       | [], [] => true
       | x :: l', y :: m' => py_eq x y && all2 l' m'
       | _, _ => false
       end) l m
  | JObj o, JObj p =>
    Nat.eqb (length (dict_keys o)) (length (dict_keys p))
    && (fix each (seen : list str) (o : list (str * json)) {struct o} : bool :=
          match o with
          | [] => true
          | (k, v) :: o' =>
            (if str_mem k seen then true
             else match dict_lookup k p with
                  | Some w => py_eq v w
                  | None => false
                  end)
            && each (k :: seen) o'
          end) [] o
  | _, _ =>
    match num_value a, num_value b with
    | Some x, Some y => Qeq_bool x y
    | _, _ => false
    end
  end.

(** [hash(v)] raises for a list and for a dict. *)
Definition hashable (v : json) : bool :=
  match v with
  | JArr _ | JObj _ => false
  | _ => true
  end.

(** Does [p] occur in [s] as a substring? *)
Fixpoint contains (p s : str) : bool :=
  starts_with p s ||
  match s with
  | [] => false
  | _ :: s' => contains p s'
  end.

(** [x in c] *)
Definition py_in (x c : json) : result bool :=
  match c with
  | JObj kvs =>
    if hashable x
    then Ok (match x with
             | JStr k => match dict_lookup k kvs with Some _ => true | None => false end
             | _ => false
             end)
    else Raise TypeError
  | JArr l => Ok (existsb (fun e => py_eq e x) l)
  | JStr s => match x with
              | JStr t => Ok (contains t s)
              | _ => Raise TypeError
              end
  | _ => Raise TypeError
  end.

(** [x in seen] for the set [seen], kept as the list of its elements. *)
Definition set_mem (x : json) (seen : list json) : result bool :=
  if hashable x then Ok (existsb (fun e => py_eq e x) seen) else Raise TypeError.

(** [l[i]] on a list or a string, with Python's negative indices. *)
Definition seq_index {A : Type} (l : list A) (i : Z) : result A :=
  let j := if (i <? 0)%Z then (i + Z.of_nat (length l))%Z else i in
  if (j <? 0)%Z then Raise IndexError
  else match nth_error l (Z.to_nat j) with
       | Some v => Ok v
       | None => Raise IndexError
       end.

(** [c[x]] *)
Definition py_getitem (c x : json) : result json :=
  match c with
  | JObj kvs =>
    match x with
    | JStr k => match dict_lookup k kvs with
                | Some v => Ok v
                | None => Raise KeyError
                end
    | _ => if hashable x then Raise KeyError else Raise TypeError
    end
  | JArr l =>
    match x with
    | JInt i => seq_index l i
    | JBool b => seq_index l (if b then 1 else 0)
    | _ => Raise TypeError
    end
  | JStr s =>
    match x with
    | JInt i => let* ch := seq_index s i in Ok (JStr [ch])
    | JBool b => let* ch := seq_index s (if b then 1 else 0) in Ok (JStr [ch])
    | _ => Raise TypeError
    end
  | _ => Raise TypeError
  end.

(** [for p in c]: the items the loop sees. *)
Definition py_iter (c : json) : result (list json) :=
  match c with
  | JArr l => Ok l
  | JStr s => Ok (List.map (fun ch => JStr [ch]) s)
  | JObj kvs => Ok (List.map JStr (dict_keys kvs))
  | _ => Raise TypeError
  end.

(** [sep.join(l)] on strings. *)
Fixpoint join (sep : str) (l : list str) : str :=
  match l with
  | [] => []
  | [s] => s
  | s :: rest => s ++ sep ++ join sep rest
  end.

(** The items of [sep.join(chunks)] must all be strings. *)
Fixpoint all_strings (l : list json) : result (list str) :=
  match l with
  | [] => Ok []
  | JStr s :: rest => let* r := all_strings rest in Ok (s :: r)
  | _ :: _ => Raise TypeError
  end.

Definition py_join (sep : str) (chunks : list json) : result str :=
  let* l := all_strings chunks in Ok (join sep l).

(** ** The message extractor *)

(** An extracted message, the dict with the keys [role] and [text]. *)
Record message : Type := { role : str; text : str }.

(** [d.get(k)] on a value known to be a dict. *)
Definition dict_get (kvs : list (str * json)) (k : str) : json :=
  match dict_lookup k kvs with
  | Some v => v
  | None => JNull
  end.

(** The condition of the loop of line 89, with its short circuits. *)
Definition walk_cond (mapping current : json) (seen : list json) : result bool :=
  if truthy current then
    let* present := py_in current mapping in
    if present then
      let* visited := set_mem current seen in Ok (negb visited)
    else Ok false
  else Ok false.

(** Lines 91 and 93: the node of [current] and the identifier of its parent. *)
Definition walk_body (mapping current : json) : result (json * json) :=
  let* node := py_getitem mapping current in
  let* parent := py_get node (lit "parent") JNull in
  Ok (node, parent).

(** The loop of lines 89 to 93 on its state: [current], the set [seen] (the
    identifier added last comes first) and [ordered_nodes].  [None] when
    [fuel] iterations do not reach the end of the loop. *)
Fixpoint walk (fuel : nat) (mapping current : json) (seen ordered_nodes : list json)
  : option (result (list json * list json)) :=
  match fuel with
  | O => None
  | S fuel' =>
    match walk_cond mapping current seen with
    | Raise e => Some (Raise e)
    | Ok false => Some (Ok (seen, ordered_nodes))
    | Ok true =>
      match walk_body mapping current with
      | Raise e => Some (Raise e)
      | Ok (node, parent) =>
        walk fuel' mapping parent (current :: seen) (ordered_nodes ++ [node])
      end
    end
  end.

(** Lines 104 to 106: the author role, with [tool] and [ChatGPT] renamed. *)
Definition resolve_author (m : json) : result json :=
  let* a := py_get m (lit "author") JNull in
  let* author := py_get (py_or a (JObj [])) (lit "role") (JStr []) in
  Ok (if py_eq author (JStr (lit "tool")) || py_eq author (JStr (lit "ChatGPT"))
      then JStr (lit "assistant") else author).

(** Line 109: is this a system message to skip? *)
Definition skipped_system (m author : json) : result bool :=
  if py_eq author (JStr (lit "system")) then
    let* md := py_get m (lit "metadata") JNull in
    let* flag := py_get (py_or md (JObj [])) (lit "is_user_system_message") JNull in
    Ok (negb (truthy flag))
  else Ok false.

(** Lines 124 to 130, one turn of the loop over the parts. *)
Definition add_part (chunks : list json) (p : json) : list json :=
  match p with
  | JStr s => if nonempty (strip s) then chunks ++ [p] else chunks
  | JObj kvs =>
    if truthy (dict_get kvs (lit "text")) then chunks ++ [dict_get kvs (lit "text")]
    else if py_eq (dict_get kvs (lit "content_type")) (JStr (lit "audio_transcription"))
            && truthy (dict_get kvs (lit "text"))
         then chunks ++ [dict_get kvs (lit "text")]
         else chunks
  | _ => chunks
  end.

(** Lines 120 to 130. *)
Definition collect_chunks (parts : list json) : list json :=
  fold_left add_part parts [].

(** Line 136. *)
Definition assign_role (author : json) : str :=
  if py_eq author (JStr (lit "assistant")) then lit "assistant" else lit "user".

Section Extractor.

Variable nfkc : str -> str.

(** Lines 119 to 132: the text of a content block. *)
Definition content_text (content : json) : result str :=
  let* ps := py_get content (lit "parts") JNull in
  let* parts := py_iter (py_or ps (JArr [])) in
  let* blob := py_join [LF] (collect_chunks parts) in
  Ok (clean_text nfkc (Some blob)).

(** Lines 99 to 137, the body of the loop over the nodes: the message the
    node adds, or [None] where the body reaches a [continue]. *)
Definition node_message (node : json) : result (option message) :=
  let* m := py_get node (lit "message") JNull in
  if negb (truthy m) then Ok None else
  let* author := resolve_author m in
  let* skip := skipped_system m author in
  if skip then Ok None else
  let* c := py_get m (lit "content") JNull in
  let* ctype := py_get (py_or c (JObj [])) (lit "content_type") JNull in
  if negb (py_eq ctype (JStr (lit "text")) || py_eq ctype (JStr (lit "multimodal_text")))
  then Ok None else
  let* text := content_text (py_or c (JObj [])) in
  if negb (nonempty text) then Ok None else
  Ok (Some {| role := assign_role author; text := text |}).

(** The loop of lines 98 to 137 over its accumulator [msgs]. *)
Fixpoint messages_of_nodes (nodes : list json) (msgs : list message)
  : result (list message) :=
  match nodes with
  | [] => Ok msgs
  | node :: rest =>
    let* om := node_message node in
    messages_of_nodes rest
      (match om with Some msg => msgs ++ [msg] | None => msgs end)
  end.

(** The function, with the fuel of its [while] loop. *)
Definition extract_messages_from_mapping (fuel : nat) (conv : json)
  : option (result (list message)) :=
  match py_get conv (lit "mapping") (JObj []) with
  | Raise e => Some (Raise e)
  | Ok mapping =>
    match py_get conv (lit "current_node") JNull with
    | Raise e => Some (Raise e)
    | Ok current =>
      match walk fuel mapping current [] [] with
      | None => None
      | Some (Raise e) => Some (Raise e)
      | Some (Ok (_, ordered_nodes)) =>
        Some (messages_of_nodes (reverse ordered_nodes) [])
      end
    end
  end.

End Extractor.

(** ** The pair builder *)

Record pair : Type := { prompt : str; completion : str }.

(** One turn of the loop of lines 157 to 169 on [(pairs, buffer_user)]. *)
Definition pairs_step (st : list pair * list str) (m : message)
  : list pair * list str :=
  let '(pairs, buffer_user) := st in
  if str_eqb (role m) (lit "user") then
    if nonempty (text m) then (pairs, buffer_user ++ [text m])
    else (pairs, buffer_user)
  else
    (if nonempty buffer_user && nonempty (text m) then
       let prompt := join [LF; LF] buffer_user in
       let completion := text m in
       if nonempty prompt && nonempty completion
       then pairs ++ [{| prompt := prompt; completion := completion |}]
       else pairs
     else pairs,
     []).

Definition messages_to_pairs (messages : list message) : list pair :=
  fst (fold_left pairs_step messages ([], [])).

(** ** The filename sanitizer *)

(** [s[:n]] *)
Definition slice_to (n : Z) (s : str) : str :=
  if (0 <=? n)%Z then take (Z.to_nat n) s
  else take (length s - Z.to_nat (- n)) s.

Section Sanitizer.

(** [str.isalnum] on one code point, from the Unicode database of the
    Python runtime; the class [\w] is these characters and the underscore. *)
Variable isalnum : N -> bool.

Definition is_word (c : N) : bool := isalnum c || (c =? 95).

(** The characters outside the class of line 188: word characters, hyphen,
    period and space. *)
Definition allowed (c : N) : bool :=
  is_word c || (c =? 45) || (c =? 46) || (c =? 32).

(** The substitution of line 188: every maximal run of characters that are
    not allowed becomes one underscore ([in_run] says that the character
    before was part of such a run). *)
Fixpoint sub_invalid_runs (in_run : bool) (s : str) : str :=
  match s with
  | [] => []
  | c :: s' =>
    if allowed c then c :: sub_invalid_runs false s'
    else if in_run then sub_invalid_runs true s'
         else 95 :: sub_invalid_runs true s'
  end.

Definition sanitize_filename (title : str) (max_length : Z) : str :=
  let safe := strip (slice_to max_length (sub_invalid_runs false title)) in
  if nonempty safe then safe else lit "conversation".

End Sanitizer.

(** [str.isalnum] on ASCII: digits and letters. *)
Definition isalnum_ascii (c : N) : bool :=
  ((48 <=? c) && (c <=? 57)) || ((65 <=? c) && (c <=? 90))
  || ((97 <=? c) && (c <=? 122)).

(** The items of a dict. *)
Definition items_of (v : json) : list (str * json) :=
  match v with
  | JObj kvs => kvs
  | _ => []
  end.

(** ** The orchestration *)

(** The labels of lines 33 and 34, as the source file has them. *)
Definition EMOJI_USER : str := [0xF0; 0x178; 0x2018; 0xA4] ++ lit " You".
Definition EMOJI_ASSISTANT : str := [0xF0; 0x178; 0xA4; 0x2013] ++ lit " Assistant".

(** Lines 232 to 238: the conversations of the decoded document, [None]
    where the source reports an invalid format. *)
Definition select_conversations (data : json) : option json :=
  match data with
  | JObj kvs => dict_lookup (lit "conversations") kvs
  | JArr _ => Some data
  | _ => None
  end.

(** An item of [all_convos], the dict with the keys [title] and
    [messages]. *)
Record convo : Type := { convo_title : str; convo_messages : list message }.

(** An item of [all_pairs]: a pair with the key [_title] added. *)
Record titled_pair : Type := { tp_pair : pair; tp_title : str }.

(** The state of the loop of lines 244 to 272: the two lists, the count of
    skipped conversations, and the files handed to [write_text], each with
    its name under the markdown folder and its content, in order. *)
Record run : Type := {
  all_convos : list convo;
  all_pairs : list titled_pair;
  skipped : nat;
  written : list (str * str)
}.

Definition empty_run : run :=
  {| all_convos := []; all_pairs := []; skipped := 0; written := [] |}.

(** Line 255. *)
Definition role_label (m : message) : str :=
  if str_eqb (role m) (lit "user") then EMOJI_USER else EMOJI_ASSISTANT.

(** Line 256. *)
Definition md_block (m : message) : str :=
  lit "**" ++ role_label m ++ lit "**:" ++ [LF; LF] ++ text m ++ [LF].

(** Lines 253 to 256 and the join of line 262. *)
Definition markdown (title : str) (messages : list message) : str :=
  join [LF] ((lit "# " ++ title ++ [LF]) :: List.map md_block messages).

(** What the outcome of [main] can be: the report of an invalid format, an
    exception that leaves it, or the state its loop ends in. *)
Inductive outcome : Type :=
| InvalidFormat
| Crashed (e : exn)
| Completed (r : run).

Section Main.

Variable nfkc : str -> str.
Variable isalnum : N -> bool.

(** Lines 252 to 272 for a conversation with messages and a title that is
    a string; [sanitize_filename] is called with its default length. *)
Definition keep (st : run) (title : str) (messages : list message) : run :=
  {| all_convos := all_convos st
                   ++ [{| convo_title := title; convo_messages := messages |}];
     all_pairs := all_pairs st
                  ++ List.map (fun p => {| tp_pair := p; tp_title := title |})
                       (messages_to_pairs messages);
     skipped := skipped st;
     written := written st
                ++ [(sanitize_filename isalnum title 120 ++ lit ".md",
                     markdown title messages)] |}.

(** Lines 245 to 272, one turn of the loop.  The title is formatted into
    the markdown whatever it is, and [sanitize_filename] raises for a title
    that is no string. *)
Definition main_step (fuel : nat) (st : run) (conv : json) : option (result run) :=
  match py_get conv (lit "title") JNull with
  | Raise e => Some (Raise e)
  | Ok t =>
    match extract_messages_from_mapping nfkc fuel conv with
    | None => None
    | Some (Raise e) => Some (Raise e)
    | Some (Ok messages) =>
      if negb (nonempty messages) then
        Some (Ok {| all_convos := all_convos st; all_pairs := all_pairs st;
                    skipped := S (skipped st); written := written st |})
      else
        match py_or t (JStr (lit "Conversation")) with
        | JStr title => Some (Ok (keep st title messages))
        | _ => Some (Raise TypeError)
        end
    end
  end.

Fixpoint main_loop (fuel : nat) (convs : list json) (st : run)
  : option (result run) :=
  match convs with
  | [] => Some (Ok st)
  | conv :: rest =>
    match main_step fuel st conv with
    | None => None
    | Some (Raise e) => Some (Raise e)
    | Some (Ok st') => main_loop fuel rest st'
    end
  end.

(** Lines 231 to 272 of [main], from the decoded document to the state
    that lines 275 to 294 write and report; [fuel] is the fuel of each call
    of the extractor. *)
Definition main_core (fuel : nat) (data : json) : option outcome :=
  match select_conversations data with
  | None => Some InvalidFormat
  | Some conversations =>
    match py_iter conversations with
    | Raise e => Some (Crashed e)
    | Ok convs =>
      match main_loop fuel convs empty_run with
      | None => None
      | Some (Raise e) => Some (Crashed e)
      | Some (Ok r) => Some (Completed r)
      end
    end
  end.

(** The item of [all_convos] a conversation gives: none when it has no
    messages. *)
Definition kept_of (fuel : nat) (conv : json) : option convo :=
  match extract_messages_from_mapping nfkc fuel conv with
  | Some (Ok (m :: ms)) =>
    match py_or (dict_get (items_of conv) (lit "title")) (JStr (lit "Conversation")) with
    | JStr title => Some {| convo_title := title; convo_messages := m :: ms |}
    | _ => None
    end
  | _ => None
  end.

(** The file of a kept conversation and its pairs. *)
Definition file_of (c : convo) : str * str :=
  (sanitize_filename isalnum (convo_title c) 120 ++ lit ".md",
   markdown (convo_title c) (convo_messages c)).

Definition pairs_of (c : convo) : list titled_pair :=
  List.map (fun p => {| tp_pair := p; tp_title := convo_title c |})
    (messages_to_pairs (convo_messages c)).

End Main.

(** A title that is a string, or falsy or missing. *)
Definition title_ok (conv : json) : bool :=
  match dict_get (items_of conv) (lit "title") with
  | JStr _ => true
  | t => negb (truthy t)
  end.

(** ** Properties the claims speak of *)

(** [p] occurs in [s] as a run of consecutive characters. *)
Definition occurs (p s : str) : Prop := exists l1 l2, s = l1 ++ p ++ l2.

(** Neither the first nor the last character of [s] is whitespace. *)
Definition stripped (s : str) : Prop :=
  (forall c, head s = Some c -> isspace c = false)
  /\ (forall c, last s = Some c -> isspace c = false).

(** No three line feeds in a row in [s], after [n] line feeds. *)
Fixpoint lf_run_ok (n : nat) (s : str) : bool :=
  match s with
  | [] => true
  | c :: s' =>
    if c =? LF then (n <? 2)%nat && lf_run_ok (S n) s' else lf_run_ok 0 s'
  end.

(** The number of double quotes that end [s]. *)
Definition quote_run (s : str) : nat := run_length DQ (reverse s).

(** *** Texts of the examples *)

(** The input of the line-ending scenario, and the two strings it is
    compared with: three line feeds, and two, between the last two words. *)
Definition crlf_input : str :=
  lit "word1" ++ [CR; LF] ++ lit "word2" ++ [CR; CR; CR] ++ lit "word3".
Definition crlf_three : str :=
  lit "word1" ++ [LF] ++ lit "word2" ++ [LF; LF; LF] ++ lit "word3".
Definition crlf_two : str :=
  lit "word1" ++ [LF] ++ lit "word2" ++ [LF; LF] ++ lit "word3".

(** Three spaces after the bullet literal. *)
Definition bullet_gap : str := BULLET ++ lit "   x".

(** A text with a tab before the bullet literal, a CRLF and bare CRs, quotes
    at its end and whitespace around it. *)
Definition messy_text : str :=
  [TAB] ++ BULLET ++ lit " item" ++ [CR; LF; CR; CR; CR]
  ++ lit "end" ++ [DQ; DQ; DQ] ++ lit "  ".

(** *** The steps of the normalizer and of the extractor *)

(** Lines 64 to 66. *)
Definition tail_steps (x : str) : str :=
  strip (sub_newline_runs (sub_trailing_quotes (strip x))).

(** The chunk one part adds to the text of a message: a plain string that is
    not blank, as it is; the [text] field of a structured part when it is
    truthy; nothing for any other part. *)
Definition chunk_of_part (p : json) : option json :=
  match p with
  | JStr s => if nonempty (strip s) then Some (JStr s) else None
  | JObj kvs =>
    if truthy (dict_get kvs (lit "text")) then Some (dict_get kvs (lit "text"))
    else None
  | _ => None
  end.

(** *** Values of the expected types *)

(** A node: a dict whose parent, when it has one, can be hashed. *)
Definition is_node (v : json) : bool :=
  match v with
  | JObj kvs => hashable (dict_get kvs (lit "parent"))
  | _ => false
  end.

Definition node_mapping (kvs : list (str * json)) : bool :=
  forallb (fun kv => is_node (snd kv)) kvs.

(** A field that holds a dict, or a falsy value in its place. *)
Definition dict_or_falsy (v : json) (ok : list (str * json) -> bool) : bool :=
  match v with
  | JObj kvs => ok kvs
  | _ => negb (truthy v)
  end.

(** A part of any shape, whose [text] field, if it is a structured part, is
    a string or falsy. *)
Definition part_ok (p : json) : bool :=
  match p with
  | JObj kvs =>
    match dict_get kvs (lit "text") with
    | JStr _ => true
    | t => negb (truthy t)
    end
  | _ => true
  end.

(** The [parts] of a content block: a list of such parts, a string, a dict,
    or a falsy value. *)
Definition parts_ok (ps : json) : bool :=
  match ps with
  | JArr l => forallb part_ok l
  | JStr _ | JObj _ => true
  | _ => negb (truthy ps)
  end.

Definition message_ok (m : json) : bool :=
  dict_or_falsy m (fun kvs =>
    dict_or_falsy (dict_get kvs (lit "author")) (fun _ => true)
    && dict_or_falsy (dict_get kvs (lit "metadata")) (fun _ => true)
    && dict_or_falsy (dict_get kvs (lit "content"))
         (fun c => parts_ok (dict_get c (lit "parts")))).

Definition node_ok (node : json) : bool :=
  match node with
  | JObj kvs =>
    hashable (dict_get kvs (lit "parent")) && message_ok (dict_get kvs (lit "message"))
  | _ => false
  end.

(** A conversation whose fields, where present, have the types the
    extractor reads them at. *)
Definition conv_ok (conv : json) : bool :=
  match conv with
  | JObj kvs =>
    match dict_lookup (lit "mapping") kvs with
    | None => true
    | Some (JObj mapping) => forallb (fun kv => node_ok (snd kv)) mapping
    | Some _ => false
    end
    && hashable (dict_get kvs (lit "current_node"))
  | _ => false
  end.

(** The number of items of the mapping of a conversation. *)
Definition mapping_size (conv : json) : nat :=
  match conv with
  | JObj kvs =>
    match dict_lookup (lit "mapping") kvs with
    | Some (JObj mapping) => length mapping
    | _ => O
    end
  | _ => O
  end.

(** *** Conversations of the examples *)

(** Two nodes, each the parent of the other. *)
Definition cyclic_mapping : list (str * json) :=
  [ (lit "A", JObj [(lit "parent", JStr (lit "B"))]);
    (lit "B", JObj [(lit "parent", JStr (lit "A"))]) ].

(** A message dict with an author role, a content type and parts. *)
Definition msg_of (author ctype : string) (parts : list json) : json :=
  JObj [ (lit "author", JObj [(lit "role", JStr (lit author))]);
         (lit "content", JObj [ (lit "content_type", JStr (lit ctype));
                                (lit "parts", JArr parts) ]) ].

(** A conversation whose only message has a structured part with the
    number 5 in its [text] field. *)
Definition conv_number_text : json :=
  JObj [ (lit "mapping",
          JObj [ (lit "A", JObj [ (lit "message",
                   msg_of "user" "text" [JObj [(lit "text", JInt 5)]]) ]) ]);
         (lit "current_node", JStr (lit "A")) ].

(** A conversation with a system message flagged as written by the user, a
    message of the author [tool], one of the author [ChatGPT] and one of an
    author the source does not name. *)
Definition conv_roles : json :=
  JObj [ (lit "mapping",
          JObj [ (lit "n1", JObj [ (lit "message",
                   JObj [ (lit "author", JObj [(lit "role", JStr (lit "system"))]);
                          (lit "metadata", JObj [(lit "is_user_system_message", JBool true)]);
                          (lit "content", JObj [ (lit "content_type", JStr (lit "text"));
                                                 (lit "parts", JArr [JStr (lit "Be brief.")]) ]) ]) ]);
                 (lit "n2", JObj [ (lit "parent", JStr (lit "n1"));
                                   (lit "message", msg_of "tool" "text" [JStr (lit "42")]) ]);
                 (lit "n3", JObj [ (lit "parent", JStr (lit "n2"));
                                   (lit "message", msg_of "ChatGPT" "text" [JStr (lit "Done.")]) ]);
                 (lit "n4", JObj [ (lit "parent", JStr (lit "n3"));
                                   (lit "message", msg_of "critic" "text" [JStr (lit "Hm.")]) ]) ]);
         (lit "current_node", JStr (lit "n4")) ].

Definition conv_roles_messages : list message :=
  [ {| role := lit "user"; text := lit "Be brief." |};
    {| role := lit "assistant"; text := lit "42" |};
    {| role := lit "assistant"; text := lit "Done." |};
    {| role := lit "user"; text := lit "Hm." |} ].

(** A conversation with gaps: a node without a message, a message without
    author, a content that is not text, parts of odd shapes, a content
    without parts, and a parent that is not in the mapping. *)
Definition conv_sparse : json :=
  JObj [ (lit "current_node", JStr (lit "e"));
         (lit "mapping",
          JObj [ (lit "a", JObj [ (lit "parent", JStr (lit "gone")) ]);
                 (lit "b", JObj [ (lit "parent", JStr (lit "a"));
                                  (lit "message",
                                   JObj [ (lit "content",
                                           JObj [ (lit "content_type", JStr (lit "text"));
                                                  (lit "parts", JArr [JStr (lit "no author")]) ]) ]) ]);
                 (lit "c", JObj [ (lit "parent", JStr (lit "b"));
                                  (lit "message", msg_of "assistant" "code" [JStr (lit "x = 1")]) ]);
                 (lit "d", JObj [ (lit "parent", JStr (lit "c"));
                                  (lit "message",
                                   msg_of "assistant" "multimodal_text"
                                     [ JInt 7; JNull; JArr [JStr (lit "nested")];
                                       JObj [(lit "content_type", JStr (lit "image"))];
                                       JObj [(lit "text", JStr (lit "heard"))];
                                       JStr (lit "seen") ]) ]);
                 (lit "e", JObj [ (lit "parent", JStr (lit "d"));
                                  (lit "message",
                                   JObj [ (lit "author", JNull);
                                          (lit "content",
                                           JObj [(lit "content_type", JStr (lit "text"))]) ]) ]) ]) ].

Definition conv_sparse_messages : list message :=
  [ {| role := lit "user"; text := lit "no author" |};
    {| role := lit "assistant"; text := lit "heard" ++ [LF] ++ lit "seen" |} ].

(** A user message [Hi] and the answer [Hello!] of the assistant. *)
Definition conv_hello : json :=
  JObj [ (lit "mapping",
          JObj [ (lit "A", JObj [ (lit "parent", JNull);
                                  (lit "message", msg_of "user" "text" [JStr (lit "Hi")]) ]);
                 (lit "B", JObj [ (lit "parent", JStr (lit "A"));
                                  (lit "message",
                                   msg_of "assistant" "text" [JStr (lit "Hello!")]) ]) ]);
         (lit "current_node", JStr (lit "B")) ].

(** *** Pairs *)

(** A pair with text on both sides. *)
Definition pair_nonempty (p : pair) : Prop := prompt p <> [] /\ completion p <> [].

(** The user texts that wait for an answer after [messages]. *)
Definition pending (messages : list message) : list str :=
  snd (fold_left pairs_step messages ([], [])).


(** Twenty hyphens. *)
Definition hyphens : str := replicate 20 45.

(** *** Further properties of the normalizer *)

(** Line endings read from the left: a CR with the line feed after it, or a
    CR alone, is one line feed; any other character stays. *)
Fixpoint unify_line_endings (s : str) : str :=
  match s with
  | [] => []
  | c :: r =>
    if c =? CR
    then LF :: match r with
               | d :: r' => if d =? LF then unify_line_endings r'
                            else unify_line_endings r
               | [] => []
               end
    else c :: unify_line_endings r
  end.

(** Whitespace of several kinds and nothing else. *)
Definition blank_text : str := [SP; TAB; CR; LF; NBSP; 0x2003; SP].

(** A text the normalizer has nothing to do on. *)
Definition tidy_text : str :=
  lit "Dear all," ++ [LF; LF] ++ BULLET ++ lit " one" ++ [LF] ++ BULLET
  ++ lit " two" ++ [LF; LF] ++ lit "He said " ++ [DQ] ++ lit "hi" ++ [DQ].

(** *** The path of the extractor *)

(** The identifiers the loop of line 89 visits from [current] when [seen]
    were visited before: it stops at a value that is not a string, at the
    empty string, at a string that is no key of the mapping and at a key it
    has seen; from any other key it goes on to the parent of the node. *)
Inductive walked (kvs : list (str * json)) : list str -> json -> list str -> Prop :=
| walked_stop (seen : list str) (current : json) :
    (forall k, current = JStr k ->
               k = [] \/ dict_lookup k kvs = None \/ k ∈ seen) ->
    walked kvs seen current []
| walked_step (seen : list str) (k : str) (n : list (str * json)) (rest : list str) :
    k <> [] -> k ∉ seen -> dict_lookup k kvs = Some (JObj n) ->
    walked kvs (k :: seen) (dict_get n (lit "parent")) rest ->
    walked kvs seen (JStr k) (k :: rest).

(** A conversation without current node whose mapping is a number. *)
Definition conv_no_current : list (str * json) :=
  [ (lit "title", JStr (lit "Empty")); (lit "mapping", JInt 5) ].

(** *** Counting and collecting messages *)

(** The texts of [us] that are not empty. *)
Definition texts_of (us : list message) : list str :=
  List.filter nonempty (text <$> us).

Definition is_user (m : message) : bool := str_eqb (role m) (lit "user").

(** Two user messages, one of them empty, one more, and an answer. *)
Definition burst : list message * message :=
  ([ {| role := lit "user"; text := lit "Part 1" |};
     {| role := lit "user"; text := [] |};
     {| role := lit "user"; text := lit "Part 2" |} ],
   {| role := lit "assistant"; text := lit "OK" |}).

(** *** Documents of the examples *)

(** A document with the conversations under the key, one of them without
    messages. *)
Definition export_doc : json :=
  JObj [ (lit "conversations",
          JArr [ JObj ((lit "title", JStr (lit "Hello/World")) :: items_of conv_hello);
                 JObj conv_no_current;
                 conv_sparse ]) ].

(** A document that is a list: two conversations and an empty dict. *)
Definition typed_doc : json := JArr [conv_hello; conv_sparse; JObj []].

(** The items of a list. *)
Definition items_list (v : json) : list json :=
  match v with
  | JArr l => l
  | _ => []
  end.

(** The state in which the loop of [main] ends on [export_doc]. *)
Definition export_run : run :=
  keep isalnum_ascii
    (keep isalnum_ascii
       {| all_convos := []; all_pairs := []; skipped := 1; written := [] |}
       (lit "Hello/World")
       [ {| role := lit "user"; text := lit "Hi" |};
         {| role := lit "assistant"; text := lit "Hello!" |} ])
    (lit "Conversation") conv_sparse_messages.

(** *** The text of a content block and the types of its fields *)

(** Texts with one line feed between each two of them. *)
Definition blob_of (texts : list str) : str :=
  match texts with
  | [] => []
  | t :: rest => t ++ flat_map (fun x => LF :: x) rest
  end.

(** A content block whose parts are a string, a structured part with a
    text, a blank string, a number, a structured part with an empty text
    and a structured part without text. *)
Definition content_mixed : list (str * json) :=
  [ (lit "content_type", JStr (lit "text"));
    (lit "parts",
     JArr [ JStr (lit "first"); JObj [(lit "text", JStr (lit "second"))];
            JStr (lit "  "); JInt 7; JObj [(lit "text", JStr [])];
            JObj [(lit "content_type", JStr (lit "image"))] ]) ].

(** An identifier the loop of line 89 can take: a falsy value, at which it
    stops, or a value that can be hashed. *)
Definition id_ok (v : json) : bool := negb (truthy v) || hashable v.

(** A node the extractor reads without raising: a dict whose parent is
    missing, falsy or hashable and whose message is missing, falsy or a
    dict with fields of the types they are read at. *)
Definition node_typed (node : json) : bool :=
  match node with
  | JObj kvs =>
    id_ok (dict_get kvs (lit "parent")) && message_ok (dict_get kvs (lit "message"))
  | _ => false
  end.

(** A conversation the extractor reads without raising: a dict whose
    current node is missing or falsy (the mapping is then not looked at),
    or whose current node is hashable and whose mapping is missing or a
    dict of such nodes. *)
Definition conv_typed (conv : json) : bool :=
  match conv with
  | JObj kvs =>
    negb (truthy (dict_get kvs (lit "current_node")))
    || (hashable (dict_get kvs (lit "current_node"))
        && match dict_lookup (lit "mapping") kvs with
           | None => true
           | Some (JObj mapping) => forallb (fun kv => node_typed (snd kv)) mapping
           | Some _ => false
           end)
  | _ => false
  end.

(** A conversation with a null mapping and no current node, and one whose
    nodes have an empty list and an empty dict as parents. *)
Definition conv_null_mapping : json :=
  JObj [ (lit "mapping", JNull); (lit "current_node", JStr []) ].

Definition conv_falsy_parents : json :=
  JObj [ (lit "current_node", JStr (lit "b"));
         (lit "mapping",
          JObj [ (lit "a", JObj [ (lit "parent", JObj []);
                                  (lit "message", msg_of "user" "text" [JStr (lit "Hi")]) ]);
                 (lit "b", JObj [ (lit "parent", JArr []);
                                  (lit "message",
                                   msg_of "assistant" "text" [JStr (lit "Hello!")]) ]) ]) ].

(** ** Lemmas on strings *)

Lemma eqb_false_ne (a b : N) : a <> b -> (a =? b) = false.
Proof. intros H. now apply N.eqb_neq. Qed.

Lemma str_eqb_eq (s t : str) : str_eqb s t = true <-> s = t.
Proof.
  revert t. induction s as [|a s IH]; intros [|b t]; simpl; split; try easy.
  - intros H. apply andb_true_iff in H as [H1 H2].
    apply N.eqb_eq in H1. apply IH in H2. now subst.
  - intros H. injection H as -> ->. rewrite N.eqb_refl. simpl. now apply IH.
Qed.

Lemma str_eqb_refl (s : str) : str_eqb s s = true.
Proof. now apply str_eqb_eq. Qed.

Lemma nonempty_false {A : Type} (l : list A) : nonempty l = false <-> l = [].
Proof. destruct l; simpl; split; easy. Qed.

Lemma nonempty_true {A : Type} (l : list A) : nonempty l = true <-> l <> [].
Proof. destruct l; simpl; split; easy. Qed.

Lemma isspace_LF : isspace LF = true.
Proof. reflexivity. Qed.

Lemma isspace_DQ : isspace DQ = false.
Proof. reflexivity. Qed.

Section Strip.

Lemma lstrip_head (s : str) (c : N) :
  head (lstrip s) = Some c -> isspace c = false.
Proof.
  induction s as [|x s IH]; simpl; [easy|].
  destruct (isspace x) eqn:E; [exact IH|].
  simpl. intros H. now injection H as <-.
Qed.

Lemma lstrip_snoc (u : str) (c : N) :
  isspace c = false -> lstrip (u ++ [c]) = lstrip u ++ [c].
Proof.
  intros Hc. induction u as [|x u IH]; simpl.
  - now rewrite Hc.
  - destruct (isspace x); [exact IH | reflexivity].
Qed.

Lemma lstrip_id (s : str) :
  (forall c, head s = Some c -> isspace c = false) -> lstrip s = s.
Proof.
  destruct s as [|x s]; simpl; [easy|].
  intros H. now rewrite (H x eq_refl).
Qed.

Lemma lstrip_suffix (s : str) : exists l, s = l ++ lstrip s.
Proof.
  induction s as [|x s [l IH]]; simpl.
  - now exists [].
  - destruct (isspace x).
    + exists (x :: l). simpl. now f_equal.
    + now exists [].
Qed.

Lemma rstrip_prefix (s : str) : exists l, s = rstrip s ++ l.
Proof.
  unfold rstrip. destruct (lstrip_suffix (reverse s)) as [l Hl].
  exists (reverse l).
  rewrite <- reverse_app, <- Hl. now rewrite reverse_involutive.
Qed.

Lemma strip_infix (s : str) : exists l1 l2, s = l1 ++ strip s ++ l2.
Proof.
  unfold strip. destruct (lstrip_suffix s) as [l1 H1].
  destruct (rstrip_prefix (lstrip s)) as [l2 H2].
  exists l1, l2. now rewrite <- H2.
Qed.

Lemma rstrip_last (s : str) (c : N) :
  last (rstrip s) = Some c -> isspace c = false.
Proof. unfold rstrip. rewrite last_reverse. apply lstrip_head. Qed.

Lemma rstrip_id (s : str) :
  (forall c, last s = Some c -> isspace c = false) -> rstrip s = s.
Proof.
  intros H. unfold rstrip. rewrite lstrip_id.
  - apply reverse_involutive.
  - intros c. rewrite head_reverse. apply H.
Qed.

Lemma rstrip_head (s : str) :
  (forall c, head s = Some c -> isspace c = false) ->
  forall c, head (rstrip s) = Some c -> isspace c = false.
Proof.
  destruct s as [|x s]; intros H c.
  - unfold rstrip. now rewrite reverse_nil.
  - unfold rstrip. rewrite reverse_cons, lstrip_snoc by now apply H.
    rewrite reverse_snoc. simpl. intros Hc. injection Hc as <-. now apply H.
Qed.

Lemma strip_stripped (s : str) : stripped (strip s).
Proof.
  split.
  - apply rstrip_head. apply lstrip_head.
  - apply rstrip_last.
Qed.

Lemma strip_id (s : str) : stripped s -> strip s = s.
Proof.
  intros [H1 H2]. unfold strip. rewrite (lstrip_id s H1). now apply rstrip_id.
Qed.

Lemma strip_Forall (P : N -> Prop) (s : str) : Forall P s -> Forall P (strip s).
Proof.
  intros H. destruct (strip_infix s) as (l1 & l2 & E). rewrite E in H.
  apply Forall_app in H as [_ H]. now apply Forall_app in H as [H _].
Qed.

Lemma strip_length (s : str) : (length (strip s) <= length s)%nat.
Proof.
  destruct (strip_infix s) as (l1 & l2 & E). rewrite E at 2.
  rewrite !length_app. lia.
Qed.

Lemma strip_occurs (p s : str) : occurs p (strip s) -> occurs p s.
Proof.
  intros (a & b & E). destruct (strip_infix s) as (l1 & l2 & Es).
  exists (l1 ++ a), (b ++ l2). rewrite Es, E.
  now rewrite <- !app_assoc.
Qed.

End Strip.

Section Replace.

Lemma replace_from_Forall (P : N -> Prop) (old new : str) (k : nat) (s : str) :
  Forall P new -> Forall P s -> Forall P (replace_from old new k s).
Proof.
  intros Hn Hs. revert k.
  induction Hs as [|c s Hc Hs IH]; intros k; simpl; [constructor|].
  destruct k; [|apply IH].
  destruct (starts_with old (c :: s)).
  - apply Forall_app. split; [exact Hn | apply IH].
  - constructor; [exact Hc | apply IH].
Qed.

Lemma replace_Forall (P : N -> Prop) (old new s : str) :
  old <> [] -> Forall P new -> Forall P s -> Forall P (replace old new s).
Proof.
  intros Ho Hn Hs. destruct old; [easy|]. now apply replace_from_Forall.
Qed.

Lemma starts_with_elem (old s : str) (x : N) :
  starts_with old s = true -> x ∈ old -> x ∈ s.
Proof.
  revert s. induction old as [|a old IH]; intros s H Hx.
  - now apply elem_of_nil in Hx.
  - destruct s as [|b s]; simpl in H; [easy|].
    apply andb_true_iff in H as [H1 H2]. apply N.eqb_eq in H1. subst b.
    apply elem_of_cons in Hx as [->|Hx].
    + apply elem_of_cons. now left.
    + apply elem_of_cons. right. now apply IH.
Qed.

Lemma contains_elem (old s : str) (x : N) :
  contains old s = true -> x ∈ old -> x ∈ s.
Proof.
  intros H Hx. induction s as [|b s IH].
  - simpl in H. rewrite orb_false_r in H. now apply (starts_with_elem old).
  - simpl in H. apply orb_true_iff in H as [H|H].
    + now apply (starts_with_elem old).
    + apply elem_of_cons. right. now apply IH.
Qed.

Lemma not_contains (old s : str) (x : N) :
  x ∈ old -> x ∉ s -> contains old s = false.
Proof.
  intros Hx Hs. destruct (contains old s) eqn:E; [|reflexivity].
  exfalso. apply Hs. now apply (contains_elem old).
Qed.

(** Where [old] does not occur, [replace] changes nothing. *)
Lemma replace_from_absent (old new s : str) :
  contains old s = false -> replace_from old new 0 s = s.
Proof.
  induction s as [|c s IH]; [easy|].
  intros H. change (contains old (c :: s))
    with (starts_with old (c :: s) || contains old s) in H.
  apply orb_false_iff in H as [H1 H2].
  change (replace_from old new 0 (c :: s))
    with (if starts_with old (c :: s)
          then new ++ replace_from old new (pred (length old)) s
          else c :: replace_from old new 0 s).
  rewrite H1. f_equal. now apply IH.
Qed.

Lemma replace_absent (old new s : str) :
  old <> [] -> contains old s = false -> replace old new s = s.
Proof.
  intros Ho H. destruct old; [easy|]. now apply replace_from_absent.
Qed.

(** Replacing a single character by a string without it removes it. *)
Lemma replace_char_gone (x : N) (new s : str) :
  x ∉ new -> x ∉ replace [x] new s.
Proof.
  intros Hn. unfold replace. induction s as [|c s IH]; simpl.
  - apply not_elem_of_nil.
  - destruct (x =? c) eqn:E; simpl.
    + intros H. apply elem_of_app in H as [H|H]; [now apply Hn | now apply IH].
    + intros H. apply elem_of_cons in H as [H|H].
      * subst c. now rewrite N.eqb_refl in E.
      * now apply IH.
Qed.

Lemma starts_with_length (old s : str) :
  starts_with old s = true -> (length old <= length s)%nat.
Proof.
  revert s. induction old as [|a old IH]; intros s H; simpl; [lia|].
  destruct s as [|b s]; simpl in H; [easy|].
  apply andb_true_iff in H as [_ H]. apply IH in H. simpl. lia.
Qed.

(** A replacement that is no longer than what it replaces does not make
    the string longer. *)
Lemma replace_from_length (old new : str) (k : nat) (s : str) :
  (length new <= length old)%nat ->
  (length (replace_from old new k s) <= length s - k)%nat.
Proof.
  intros Hl. revert k. induction s as [|c s IH]; intros k; [simpl; lia|].
  destruct k as [|k]; [|exact (IH k)].
  change (replace_from old new 0 (c :: s))
    with (if starts_with old (c :: s)
          then new ++ replace_from old new (pred (length old)) s
          else c :: replace_from old new 0 s).
  destruct (starts_with old (c :: s)) eqn:E.
  - apply starts_with_length in E. simpl in E. rewrite length_app.
    pose proof (IH (pred (length old))). simpl. lia.
  - pose proof (IH 0%nat). simpl. lia.
Qed.

(** A shorter replacement makes the string shorter where [old] occurs. *)
Lemma replace_from_shrinks (old new s : str) :
  (length new < length old)%nat -> contains old s = true ->
  (length (replace_from old new 0 s) < length s)%nat.
Proof.
  intros Hl. induction s as [|c s IH]; intros H.
  - simpl in H. rewrite orb_false_r in H. apply starts_with_length in H.
    simpl in H. lia.
  - change (contains old (c :: s))
      with (starts_with old (c :: s) || contains old s) in H.
    change (replace_from old new 0 (c :: s))
      with (if starts_with old (c :: s)
            then new ++ replace_from old new (pred (length old)) s
            else c :: replace_from old new 0 s).
    destruct (starts_with old (c :: s)) eqn:E.
    + apply starts_with_length in E. simpl in E. rewrite length_app.
      pose proof (replace_from_length old new (pred (length old)) s).
      simpl. lia.
    + simpl in H. apply IH in H. simpl. lia.
Qed.

End Replace.

Section Collapse.

Lemma collapse_from_Forall (P : N -> Prop) (n : nat) (s : str) :
  Forall P s -> Forall P (collapse_from n s).
Proof.
  intros Hs. revert n.
  induction Hs as [|c s Hc Hs IH]; intros n; simpl; [constructor|].
  destruct (c =? LF); [destruct (n <? 2)%nat|];
    try (constructor; [exact Hc|]); apply IH.
Qed.

(** After the substitution no three line feeds are left in a row. *)
Lemma collapse_from_ok (n : nat) (s : str) :
  lf_run_ok (Nat.min n 2) (collapse_from n s) = true.
Proof.
  revert n. induction s as [|c s IH]; intros n; simpl; [reflexivity|].
  destruct (c =? LF) eqn:E.
  - destruct (n <? 2)%nat eqn:En.
    + apply Nat.ltb_lt in En. simpl. rewrite E.
      replace (Nat.min n 2) with n by lia.
      assert (Hn : (n <? 2)%nat = true) by now apply Nat.ltb_lt.
      rewrite Hn. simpl.
      specialize (IH (S n)). now replace (Nat.min (S n) 2) with (S n) in IH by lia.
    + apply Nat.ltb_ge in En. specialize (IH (S n)).
      replace (Nat.min (S n) 2) with 2%nat in IH by lia.
      now replace (Nat.min n 2) with 2%nat by lia.
  - simpl. rewrite E. apply (IH 0%nat).
Qed.

Lemma lf_run_ok_triple (n : nat) (l1 l2 : str) :
  lf_run_ok n (l1 ++ [LF; LF; LF] ++ l2) = false.
Proof.
  revert n. induction l1 as [|c l1 IH]; intros n.
  - destruct n as [|[|n]]; reflexivity.
  - simpl. destruct (c =? LF); [|apply IH].
    rewrite IH. apply andb_false_r.
Qed.

Lemma lf_run_ok_occurs (n : nat) (s : str) :
  lf_run_ok n s = true -> ~ occurs [LF; LF; LF] s.
Proof.
  intros H (l1 & l2 & E). subst s. now rewrite lf_run_ok_triple in H.
Qed.

(** A string without three line feeds in a row is left as it is. *)
Lemma collapse_from_id (n : nat) (s : str) :
  lf_run_ok n s = true -> collapse_from n s = s.
Proof.
  revert n. induction s as [|c s IH]; intros n; simpl; [reflexivity|].
  destruct (c =? LF).
  - intros H. apply andb_true_iff in H as [H1 H2]. rewrite H1.
    f_equal. now apply IH.
  - intros H. f_equal. now apply IH.
Qed.

Lemma collapse_from_snoc (n : nat) (u : str) (y : N) :
  y <> LF -> collapse_from n (u ++ [y]) = collapse_from n u ++ [y].
Proof.
  intros Hy. revert n. induction u as [|c u IH]; intros n; simpl.
  - now rewrite (eqb_false_ne y LF Hy).
  - destruct (c =? LF); [destruct (n <? 2)%nat|]; simpl; now rewrite IH.
Qed.

(** The output for a string that ends in a line feed ends in a line feed,
    or is empty when the whole string continues a run of two or more. *)
Lemma collapse_from_snoc_LF (n : nat) (u : str) :
  (exists w, collapse_from n (u ++ [LF]) = w ++ [LF])
  \/ (collapse_from n (u ++ [LF]) = [] /\ (2 <= n)%nat).
Proof.
  revert n. induction u as [|c u IH]; intros n; simpl.
  - destruct (n <? 2)%nat eqn:En.
    + left. now exists [].
    + right. apply Nat.ltb_ge in En. easy.
  - destruct (c =? LF) eqn:E.
    + destruct (n <? 2)%nat eqn:En.
      * left. destruct (IH (S n)) as [[w Hw]|[Hw _]]; rewrite Hw.
        -- now exists (c :: w).
        -- apply N.eqb_eq in E. subst c. now exists [].
      * apply Nat.ltb_ge in En.
        destruct (IH (S n)) as [[w Hw]|[Hw _]]; rewrite Hw.
        -- left. now exists w.
        -- right. easy.
    + left. destruct (IH 0%nat) as [[w Hw]|[_ Hw]]; [|lia].
      rewrite Hw. now exists (c :: w).
Qed.

Lemma collapse_from_last_DQ (n : nat) (u : str) :
  last (collapse_from n u) = Some DQ -> last u = Some DQ.
Proof.
  destruct u as [|z u _] using rev_ind; [easy|].
  destruct (N.eq_dec z LF) as [->|Hz].
  - destruct (collapse_from_snoc_LF n u) as [[w Hw]|[Hw _]]; rewrite Hw.
    + rewrite last_snoc. intros H. now injection H.
    + easy.
  - rewrite collapse_from_snoc by exact Hz. now rewrite !last_snoc.
Qed.

Lemma collapse_from_head (s : str) : head (collapse_from 0 s) = head s.
Proof. destruct s as [|c s]; simpl; [easy|]. now destruct (c =? LF). Qed.

Lemma collapse_from_length (n : nat) (s : str) :
  (length (collapse_from n s) <= length s)%nat.
Proof.
  revert n. induction s as [|c s IH]; intros n; simpl; [lia|].
  destruct (c =? LF); [destruct (n <? 2)%nat|]; simpl;
    try (pose proof (IH (S n))); try (pose proof (IH 0%nat)); lia.
Qed.

End Collapse.

Section Quotes.

Lemma run_length_le (c : N) (s : str) : (run_length c s <= length s)%nat.
Proof.
  induction s as [|x s IH]; simpl; [lia|]. destruct (x =? c); simpl; lia.
Qed.

Lemma run_length_drop (c : N) (s : str) :
  run_length c (drop (run_length c s) s) = 0%nat.
Proof.
  induction s as [|x s IH]; simpl; [reflexivity|].
  destruct (x =? c) eqn:E; simpl; [exact IH | now rewrite E].
Qed.

Lemma run_length_zero (c : N) (s : str) :
  head s <> Some c -> run_length c s = 0%nat.
Proof.
  destruct s as [|x s]; simpl; [reflexivity|].
  intros H. destruct (x =? c) eqn:E; [|reflexivity].
  apply N.eqb_eq in E. now subst.
Qed.

Lemma sub_quotes_at_end_run (s : str) : (quote_run (sub_quotes_at_end s) <= 1)%nat.
Proof.
  unfold sub_quotes_at_end.
  destruct (2 <=? run_length DQ (reverse s))%nat eqn:E.
  - unfold quote_run. rewrite reverse_snoc. simpl.
    rewrite reverse_take.
    pose proof (run_length_le DQ (reverse s)) as Hle.
    rewrite length_reverse in Hle.
    replace (length s - (length s - run_length DQ (reverse s)))%nat
      with (run_length DQ (reverse s)) by lia.
    now rewrite run_length_drop.
  - apply Nat.leb_gt in E. unfold quote_run. lia.
Qed.

Lemma sub_quotes_at_end_stripped (s : str) :
  stripped s -> stripped (sub_quotes_at_end s).
Proof.
  intros [H1 H2]. unfold sub_quotes_at_end.
  destruct (2 <=? run_length DQ (reverse s))%nat; [|now split].
  split; intros c.
  - destruct s as [|x s].
    + rewrite take_nil. simpl. intros H. now injection H as <-.
    + destruct (length (x :: s) - run_length DQ (reverse (x :: s)))%nat; simpl.
      * intros H. now injection H as <-.
      * intros H. injection H as <-. now apply H1.
  - rewrite last_snoc. intros H. now injection H as <-.
Qed.

Lemma sub_quotes_at_end_id (s : str) :
  (quote_run s <= 1)%nat -> sub_quotes_at_end s = s.
Proof.
  unfold quote_run, sub_quotes_at_end. intros H.
  destruct (2 <=? run_length DQ (reverse s))%nat eqn:E; [|reflexivity].
  apply Nat.leb_le in E. lia.
Qed.

Lemma sub_quotes_at_end_Forall (P : N -> Prop) (s : str) :
  P DQ -> Forall P s -> Forall P (sub_quotes_at_end s).
Proof.
  intros Hq Hs. unfold sub_quotes_at_end.
  destruct (2 <=? run_length DQ (reverse s))%nat; [|exact Hs].
  apply Forall_app. split; [now apply Forall_take | now constructor].
Qed.

(** On a stripped string [$] holds at the end only. *)
Lemma sub_trailing_quotes_stripped (s : str) :
  stripped s -> sub_trailing_quotes s = sub_quotes_at_end s.
Proof.
  intros [_ H]. unfold sub_trailing_quotes.
  destruct (reverse s) as [|c u] eqn:E.
  - apply (f_equal reverse) in E. rewrite reverse_involutive in E.
    now subst s.
  - assert (Hc : last s = Some c) by now rewrite <- head_reverse, E.
    apply H in Hc. destruct (c =? LF) eqn:Ec; [|reflexivity].
    apply N.eqb_eq in Ec. subst c. now rewrite isspace_LF in Hc.
Qed.

(** The line-feed substitution keeps a stripped string stripped and adds
    no quote to its end. *)
Lemma collapse_keeps_shape (b : str) :
  stripped b -> (quote_run b <= 1)%nat ->
  stripped (collapse_from 0 b) /\ (quote_run (collapse_from 0 b) <= 1)%nat.
Proof.
  intros [H1 H2] Hq.
  destruct b as [|y u _] using rev_ind.
  { split; [now split | unfold quote_run; simpl; lia]. }
  assert (Hy : isspace y = false) by (apply H2; now rewrite last_snoc).
  assert (Hlf : y <> LF) by (intros ->; now rewrite isspace_LF in Hy).
  rewrite collapse_from_snoc by exact Hlf.
  split; [split|].
  - intros c Hc. apply H1. rewrite <- Hc.
    rewrite <- (collapse_from_snoc 0 u y Hlf). symmetry. apply collapse_from_head.
  - intros c. rewrite last_snoc. intros H. now injection H as <-.
  - unfold quote_run in *. rewrite reverse_snoc in *. simpl in *.
    destruct (y =? DQ); [|lia].
    rewrite run_length_zero; [lia|].
    rewrite head_reverse. intros Hl.
    apply collapse_from_last_DQ in Hl. apply last_Some in Hl as [u' ->].
    rewrite reverse_snoc in Hq. simpl in Hq. lia.
Qed.

Lemma sub_quotes_at_end_length (s : str) :
  (length (sub_quotes_at_end s) <= length s)%nat.
Proof.
  unfold sub_quotes_at_end.
  destruct (2 <=? run_length DQ (reverse s))%nat eqn:E; [|lia].
  apply Nat.leb_le in E. pose proof (run_length_le DQ (reverse s)) as Hle.
  rewrite length_reverse in Hle. rewrite length_app, length_take. simpl. lia.
Qed.

End Quotes.

(** ** The shape of normalized text *)

Section NormalForm.

Lemma clean_rest_tail (s : str) :
  clean_rest s =
  tail_steps (replace [NBSP] [SP]
    (standardize_bullets (standardize_tabs (normalize_line_endings s)))).
Proof. reflexivity. Qed.

Lemma tail_steps_shape (x : str) :
  stripped (tail_steps x) /\ (quote_run (tail_steps x) <= 1)%nat
  /\ lf_run_ok 0 (tail_steps x) = true.
Proof.
  unfold tail_steps, sub_newline_runs.
  pose proof (strip_stripped x) as Ha.
  rewrite (sub_trailing_quotes_stripped _ Ha).
  pose proof (sub_quotes_at_end_stripped _ Ha) as Hb.
  pose proof (sub_quotes_at_end_run (strip x)) as Hq.
  destruct (collapse_keeps_shape _ Hb Hq) as [Hc Hcq].
  rewrite (strip_id _ Hc). repeat split; try apply Hc; try exact Hcq.
  apply (collapse_from_ok 0).
Qed.

Lemma tail_steps_Forall (P : N -> Prop) (x : str) :
  P DQ -> Forall P x -> Forall P (tail_steps x).
Proof.
  intros Hq Hx. unfold tail_steps, sub_newline_runs.
  rewrite (sub_trailing_quotes_stripped _ (strip_stripped x)).
  apply strip_Forall, collapse_from_Forall, sub_quotes_at_end_Forall; [exact Hq|].
  now apply strip_Forall.
Qed.

Lemma tail_steps_id (o : str) :
  stripped o -> (quote_run o <= 1)%nat -> lf_run_ok 0 o = true ->
  tail_steps o = o.
Proof.
  intros Hs Hq Hl. unfold tail_steps, sub_newline_runs.
  rewrite (strip_id _ Hs), (sub_trailing_quotes_stripped _ Hs).
  rewrite (sub_quotes_at_end_id _ Hq), (collapse_from_id _ _ Hl).
  now apply strip_id.
Qed.

Lemma Forall_ne (x : N) (s : str) : Forall (fun c => c <> x) s <-> x ∉ s.
Proof.
  rewrite Forall_forall. split.
  - intros H Hx. now apply (H x Hx).
  - intros H c Hc ->. now apply H.
Qed.

Ltac chars := vm_compute; repeat constructor; discriminate.

Lemma clean_rest_no_CR (s : str) : CR ∉ clean_rest s.
Proof.
  rewrite clean_rest_tail. apply Forall_ne.
  apply tail_steps_Forall; [discriminate|].
  apply replace_Forall; [discriminate | chars |].
  apply replace_Forall; [discriminate | chars |].
  apply replace_Forall; [discriminate | chars |].
  apply replace_Forall; [discriminate | chars |].
  apply replace_Forall; [discriminate | chars |].
  apply Forall_ne. apply replace_char_gone.
  intros H. apply list_elem_of_singleton in H. discriminate.
Qed.

Lemma clean_rest_no_TAB (s : str) : TAB ∉ clean_rest s.
Proof.
  rewrite clean_rest_tail. apply Forall_ne.
  apply tail_steps_Forall; [discriminate|].
  apply replace_Forall; [discriminate | chars |].
  apply replace_Forall; [discriminate | chars |].
  apply replace_Forall; [discriminate | chars |].
  apply Forall_ne. apply replace_char_gone.
  vm_compute. intros H. repeat (apply elem_of_cons in H as [H|H]; [discriminate|]).
  now apply elem_of_nil in H.
Qed.

Lemma clean_rest_no_NBSP (s : str) : NBSP ∉ clean_rest s.
Proof.
  rewrite clean_rest_tail. apply Forall_ne.
  apply tail_steps_Forall; [discriminate|].
  apply Forall_ne. apply replace_char_gone.
  intros H. apply list_elem_of_singleton in H. discriminate.
Qed.

Lemma tail_steps_length (x : str) : (length (tail_steps x) <= length x)%nat.
Proof.
  unfold tail_steps, sub_newline_runs.
  rewrite (sub_trailing_quotes_stripped _ (strip_stripped x)).
  pose proof (strip_length (collapse_from 0 (sub_quotes_at_end (strip x)))).
  pose proof (collapse_from_length 0 (sub_quotes_at_end (strip x))).
  pose proof (sub_quotes_at_end_length (strip x)).
  pose proof (strip_length x). lia.
Qed.

(** On a string without CR, tab and no-break space only the replacement of
    the bullet literal followed by two spaces and the last steps can act. *)
Lemma clean_rest_plain (o : str) :
  CR ∉ o -> TAB ∉ o -> NBSP ∉ o ->
  clean_rest o =
  tail_steps (replace [NBSP] [SP]
    (replace (BULLET ++ lit "  ") (BULLET ++ lit " ") o)).
Proof.
  intros Hcr Htab Hnb.
  assert (E1 : normalize_line_endings o = o).
  { unfold normalize_line_endings.
    rewrite (replace_absent [CR; LF]); [|discriminate|].
    - apply replace_absent; [discriminate|].
      apply (not_contains _ _ CR); [|exact Hcr]. apply elem_of_cons; now left.
    - apply (not_contains _ _ CR); [|exact Hcr]. apply elem_of_cons; now left. }
  assert (E2 : standardize_tabs o = o).
  { unfold standardize_tabs.
    rewrite (replace_absent (TAB :: BULLET)); [|discriminate|].
    - apply replace_absent; [discriminate|].
      apply (not_contains _ _ TAB); [|exact Htab]. apply elem_of_cons; now left.
    - apply (not_contains _ _ TAB); [|exact Htab]. apply elem_of_cons; now left. }
  rewrite clean_rest_tail, E1, E2. unfold standardize_bullets.
  rewrite (replace_absent (BULLET ++ [TAB])); [reflexivity | discriminate |].
  apply (not_contains _ _ TAB); [|exact Htab].
  apply elem_of_app. right. apply elem_of_cons; now left.
Qed.

(** A string of the shape the normalizer produces, in which the bullet
    literal is nowhere followed by two spaces, is a fixed point of the
    steps after the Unicode normalization. *)
Lemma clean_rest_fixed (o : str) :
  stripped o -> (quote_run o <= 1)%nat -> lf_run_ok 0 o = true ->
  CR ∉ o -> TAB ∉ o -> NBSP ∉ o ->
  contains (BULLET ++ lit "  ") o = false ->
  clean_rest o = o.
Proof.
  intros Hs Hq Hl Hcr Htab Hnb Hb.
  rewrite (clean_rest_plain o Hcr Htab Hnb).
  rewrite (replace_absent (BULLET ++ lit "  ")); [|discriminate | exact Hb].
  rewrite (replace_absent [NBSP]); [|discriminate|].
  - now apply tail_steps_id.
  - apply (not_contains _ _ NBSP); [|exact Hnb]. apply elem_of_cons; now left.
Qed.

(** Where the bullet literal is followed by two spaces, the steps make the
    string shorter. *)
Lemma clean_rest_shorter (o : str) :
  CR ∉ o -> TAB ∉ o -> NBSP ∉ o ->
  contains (BULLET ++ lit "  ") o = true ->
  (length (clean_rest o) < length o)%nat.
Proof.
  intros Hcr Htab Hnb Hb.
  rewrite (clean_rest_plain o Hcr Htab Hnb).
  pose proof (tail_steps_length (replace [NBSP] [SP]
    (replace (BULLET ++ lit "  ") (BULLET ++ lit " ") o))) as H1.
  pose proof (replace_from_length [NBSP] [SP] 0
    (replace (BULLET ++ lit "  ") (BULLET ++ lit " ") o)) as H2.
  pose proof (replace_from_shrinks (BULLET ++ lit "  ") (BULLET ++ lit " ") o) as H3.
  change (replace_from [NBSP] [SP] 0) with (replace [NBSP] [SP]) in H2.
  change (replace_from (BULLET ++ lit "  ") (BULLET ++ lit " ") 0 o)
    with (replace (BULLET ++ lit "  ") (BULLET ++ lit " ") o) in H3.
  specialize (H2 (le_n _)). specialize (H3 (le_n _) Hb). lia.
Qed.

End NormalForm.

(** ** The text normalizer: results *)

Lemma clean_rest_shape (s : str) :
  stripped (clean_rest s) /\ (quote_run (clean_rest s) <= 1)%nat
  /\ lf_run_ok 0 (clean_rest s) = true.
Proof. rewrite clean_rest_tail. apply tail_steps_shape. Qed.

(** C4: for every input, a string or [None], and whatever the Unicode
    normalization does, the output of [clean_text] neither starts nor ends
    with whitespace and has no three line feeds in a row. *)
Theorem clean_text_stripped_no_triple_lf (nfkc : str -> str) (s : option str) :
  stripped (clean_text nfkc s) /\ ~ occurs [LF; LF; LF] (clean_text nfkc s).
Proof.
  destruct s as [s|]; simpl.
  - destruct (clean_rest_shape (nfkc s)) as (Hs & _ & Hl).
    split; [exact Hs | now apply (lf_run_ok_occurs 0)].
  - split; [now split | now apply (lf_run_ok_occurs 0)].
Qed.

(** C8, the claim as stated fails: on the scenario's input the line-ending
    step leaves three line feeds between the last two words, not two. *)
Lemma line_endings_not_two_lf : normalize_line_endings crlf_input <> crlf_two.
Proof. vm_compute. discriminate. Qed.

(** C8, amended: on the scenario's input, which the Unicode normalization
    leaves as it is, the line-ending step turns the CRLF into one line feed
    and each of the three bare CRs into a line feed of its own, so three
    line feeds stand in a row; the substitution of line 65 reduces them to
    two, and [clean_text] returns the string with two. *)
Theorem crlf_scenario (nfkc : str -> str) :
  nfkc crlf_input = crlf_input ->
  normalize_line_endings crlf_input = crlf_three
  /\ sub_newline_runs crlf_three = crlf_two
  /\ crlf_three <> crlf_two
  /\ clean_text nfkc (Some crlf_input) = crlf_two.
Proof.
  intros H. repeat split.
  - vm_compute. discriminate.
  - simpl. rewrite H. reflexivity.
Qed.

Lemma crlf_scenario_witness :
  nfkc_latin crlf_input = crlf_input
  /\ normalize_line_endings crlf_input = crlf_three
  /\ sub_newline_runs crlf_three = crlf_two
  /\ crlf_three <> crlf_two
  /\ clean_text nfkc_latin (Some crlf_input) = crlf_two.
Proof. split; [reflexivity | apply (crlf_scenario nfkc_latin); reflexivity]. Defined.

(** C1, the claim as stated fails: the replacement of the bullet literal
    followed by two spaces is a single pass, so of three spaces after the
    literal the first call leaves two and the second call leaves one. *)
Lemma clean_text_not_idempotent :
  clean_text nfkc_latin (Some (clean_text nfkc_latin (Some bullet_gap)))
  <> clean_text nfkc_latin (Some bullet_gap).
Proof. vm_compute. discriminate. Qed.

(** C1, amended: whenever the output of [clean_text] is left as it is by
    the Unicode normalization, applying [clean_text] to it returns it
    unchanged exactly when it nowhere has the bullet literal followed by
    two spaces. *)
Theorem clean_text_idempotent_without_bullet_gap (nfkc : str -> str) (s : str) :
  nfkc (clean_text nfkc (Some s)) = clean_text nfkc (Some s) ->
  (clean_text nfkc (Some (clean_text nfkc (Some s))) = clean_text nfkc (Some s)
   <-> contains (BULLET ++ lit "  ") (clean_text nfkc (Some s)) = false).
Proof.
  cbn [clean_text]. intros Hn. rewrite Hn.
  destruct (clean_rest_shape (nfkc s)) as (Hs & Hq & Hl).
  pose proof (clean_rest_no_CR (nfkc s)) as Hcr.
  pose proof (clean_rest_no_TAB (nfkc s)) as Htab.
  pose proof (clean_rest_no_NBSP (nfkc s)) as Hnb.
  split.
  - intros Hfix.
    destruct (contains (BULLET ++ lit "  ") (clean_rest (nfkc s))) eqn:Hb;
      [|reflexivity].
    pose proof (clean_rest_shorter _ Hcr Htab Hnb Hb) as Hlt.
    rewrite Hfix in Hlt. lia.
  - intros Hb. now apply clean_rest_fixed.
Qed.

Lemma clean_text_idempotent_without_bullet_gap_witness :
  nfkc_latin (clean_text nfkc_latin (Some messy_text))
    = clean_text nfkc_latin (Some messy_text)
  /\ contains (BULLET ++ lit "  ") (clean_text nfkc_latin (Some messy_text)) = false
  /\ clean_text nfkc_latin (Some (clean_text nfkc_latin (Some messy_text)))
     = clean_text nfkc_latin (Some messy_text).
Proof.
  split; [reflexivity|]. split; [reflexivity|].
  apply (clean_text_idempotent_without_bullet_gap nfkc_latin messy_text); reflexivity.
Defined.

(** ** The pair builder: results *)

Section Pairs.

Lemma pairs_step_nonempty (st : list pair * list str) (m : message) :
  Forall pair_nonempty (fst st) -> Forall pair_nonempty (fst (pairs_step st m)).
Proof.
  destruct st as [pairs buffer_user]. unfold pairs_step. simpl. intros H.
  destruct (str_eqb (role m) (lit "user")).
  - now destruct (nonempty (text m)).
  - simpl. destruct (nonempty buffer_user && nonempty (text m)); [|exact H].
    destruct (nonempty (join [LF; LF] buffer_user)) eqn:E1; [|exact H].
    destruct (nonempty (text m)) eqn:E2; [|exact H].
    simpl. apply Forall_app. split; [exact H|].
    constructor; [|constructor].
    split; simpl; now apply nonempty_true.
Qed.

Lemma fold_pairs_nonempty (ms : list message) (st : list pair * list str) :
  Forall pair_nonempty (fst st) ->
  Forall pair_nonempty (fst (fold_left pairs_step ms st)).
Proof.
  revert st. induction ms as [|m ms IH]; intros st H; simpl; [exact H|].
  apply IH. now apply pairs_step_nonempty.
Qed.



Lemma join_nonempty (sep : str) (l : list str) :
  l <> [] -> Forall (fun t => t <> []) l -> join sep l <> [].
Proof.
  destruct l as [|t l]; [easy|]. intros _ H.
  apply Forall_cons in H as [Ht _].
  destruct t as [|c t]; [easy|]. simpl. now destruct l.
Qed.

(** The pairs found so far are only ever extended. *)
Lemma pairs_step_prefix (pairs : list pair) (buffer_user : list str) (m : message) :
  pairs_step (pairs, buffer_user) m =
  (pairs ++ fst (pairs_step ([], buffer_user) m),
   snd (pairs_step ([], buffer_user) m)).
Proof.
  unfold pairs_step.
  destruct (str_eqb (role m) (lit "user")).
  - destruct (nonempty (text m)); simpl; now rewrite app_nil_r.
  - simpl. destruct (nonempty buffer_user && nonempty (text m));
      [|now rewrite app_nil_r].
    destruct (nonempty (join [LF; LF] buffer_user) && nonempty (text m));
      simpl; now rewrite ?app_nil_r.
Qed.

Lemma fold_pairs_prefix (ms : list message) (pairs : list pair) (buffer_user : list str) :
  fold_left pairs_step ms (pairs, buffer_user) =
  (pairs ++ fst (fold_left pairs_step ms ([], buffer_user)),
   snd (fold_left pairs_step ms ([], buffer_user))).
Proof.
  revert pairs buffer_user.
  induction ms as [|m ms IH]; intros pairs buffer_user; cbn [fold_left].
  - simpl. now rewrite app_nil_r.
  - rewrite pairs_step_prefix.
    rewrite IH. destruct (pairs_step ([], buffer_user) m) as [p b].
    rewrite (IH p b). simpl. now rewrite app_assoc.
Qed.

End Pairs.

(** C6: for every sequence of messages, every pair of [messages_to_pairs]
    has a prompt that is not empty and a completion that is not empty. *)
Theorem messages_to_pairs_nonempty (messages : list message) :
  Forall (fun p => prompt p <> [] /\ completion p <> []) (messages_to_pairs messages).
Proof.
  unfold messages_to_pairs. apply (fold_pairs_nonempty messages ([], [])).
  constructor.
Qed.



(** ** The filename sanitizer: results *)

Lemma slice_to_length (n : Z) (s : str) :
  (0 <= n)%Z -> (Z.of_nat (length (slice_to n s)) <= n)%Z.
Proof.
  intros H. unfold slice_to.
  assert (E : (0 <=? n)%Z = true) by now apply Z.leb_le.
  rewrite E, length_take. lia.
Qed.

(** C9, the claim as stated fails: a negative [max_length] cuts that many
    characters off the end, so of twenty hyphens and [max_length] -1 the
    result keeps nineteen, more than twelve. *)
Lemma sanitize_filename_negative_length :
  ~ (Z.of_nat (length (sanitize_filename isalnum_ascii hyphens (-1)))
     <= Z.max (-1) 12)%Z.
Proof. vm_compute. intros H. now apply H. Qed.

(** C9, amended: for every title and every [max_length] that is not
    negative, [sanitize_filename] returns a string that is not empty and
    has at most max(max_length, 12) characters: when substitution, cut and
    strip leave nothing it is the literal [conversation] of twelve
    characters, whatever [max_length] is, and otherwise it has at most
    [max_length] characters. *)
Theorem sanitize_filename_bound (isalnum : N -> bool) (title : str) (max_length : Z) :
  (0 <= max_length)%Z ->
  sanitize_filename isalnum title max_length <> []
  /\ (Z.of_nat (length (sanitize_filename isalnum title max_length))
      <= Z.max max_length 12)%Z
  /\ (strip (slice_to max_length (sub_invalid_runs isalnum false title)) = [] ->
      sanitize_filename isalnum title max_length = lit "conversation"
      /\ length (lit "conversation") = 12%nat)
  /\ (strip (slice_to max_length (sub_invalid_runs isalnum false title)) <> [] ->
      (Z.of_nat (length (sanitize_filename isalnum title max_length))
       <= max_length)%Z).
Proof.
  intros H. unfold sanitize_filename.
  pose proof (strip_length (slice_to max_length (sub_invalid_runs isalnum false title))) as H1.
  pose proof (slice_to_length max_length (sub_invalid_runs isalnum false title) H) as H2.
  destruct (strip (slice_to max_length (sub_invalid_runs isalnum false title)))
    as [|c safe] eqn:E; simpl nonempty; cbv iota.
  - repeat split; try easy. simpl. lia.
  - repeat split; try easy; simpl in *; lia.
Qed.

Lemma sanitize_filename_bound_witness :
  (0 <= 5)%Z
  /\ sanitize_filename isalnum_ascii (lit "My/Chat: Test?") 5 = lit "My_Ch"
  /\ sanitize_filename isalnum_ascii (lit "   ") 5 = lit "conversation"
  /\ sanitize_filename isalnum_ascii (lit "My/Chat: Test?") 5 <> [].
Proof.
  split; [lia|]. split; [reflexivity|]. split; [reflexivity|].
  apply (sanitize_filename_bound isalnum_ascii (lit "My/Chat: Test?") 5). lia.
Defined.

(** ** The message extractor: the parts of a message *)

Section Chunks.

Lemma add_part_chunk (chunks : list json) (p : json) :
  add_part chunks p =
  chunks ++ match chunk_of_part p with Some c => [c] | None => [] end.
Proof.
  destruct p; simpl; try now rewrite app_nil_r.
  - now destruct (nonempty (strip s)); rewrite ?app_nil_r.
  - destruct (truthy (dict_get kvs (lit "text"))); [reflexivity|].
    rewrite andb_false_r. now rewrite app_nil_r.
Qed.

Lemma fold_add_part (parts chunks : list json) :
  fold_left add_part parts chunks = chunks ++ omap chunk_of_part parts.
Proof.
  revert chunks. induction parts as [|p parts IH]; intros chunks; simpl.
  - now rewrite app_nil_r.
  - rewrite IH, add_part_chunk. rewrite <- app_assoc.
    now destruct (chunk_of_part p).
Qed.

Lemma all_strings_fmap (texts : list str) : all_strings (JStr <$> texts) = Ok texts.
Proof.
  induction texts as [|t texts IH]; simpl; [reflexivity|].
  fold (fmap (M := list) JStr texts). now rewrite IH.
Qed.

Lemma join_blob (texts : list str) : join [LF] texts = blob_of texts.
Proof.
  destruct texts as [|t rest]; [reflexivity|]. revert t.
  induction rest as [|u rest IH]; intros t.
  - simpl. now rewrite app_nil_r.
  - change (join [LF] (t :: u :: rest)) with (t ++ [LF] ++ join [LF] (u :: rest)).
    rewrite IH. unfold blob_of. cbn [flat_map app]. reflexivity.
Qed.

End Chunks.

(** C3, the claim as stated fails: a part that is a plain string of one
    space is not empty, and it adds no chunk. *)
Lemma blank_string_part_dropped :
  lit " " <> [] /\ collect_chunks [JStr (lit " ")] = [].
Proof. split; [discriminate | reflexivity]. Qed.

(** C3, amended: the chunks of a list of parts are, in the order of the
    parts, what [chunk_of_part] gives for each part: a plain string that is
    not blank after stripping, as it is; the [text] field of a structured
    part when it is truthy; nothing for any other part, a blank plain string
    included.  When these chunks are all strings, the text of a content
    block with these parts is [clean_text] of the chunks, in that order,
    with one line feed between each two of them. *)
Theorem collect_chunks_by_part (nfkc : str -> str) (parts : list json) :
  collect_chunks parts = omap chunk_of_part parts
  /\ forall (content : list (str * json)) (texts : list str),
       py_iter (py_or (dict_get content (lit "parts")) (JArr [])) = Ok parts ->
       omap chunk_of_part parts = JStr <$> texts ->
       content_text nfkc (JObj content)
       = Ok (clean_text nfkc (Some (blob_of texts))).
Proof.
  assert (Hc : collect_chunks parts = omap chunk_of_part parts).
  { unfold collect_chunks. now rewrite fold_add_part. }
  split; [exact Hc|]. intros content texts Hi Ht.
  unfold content_text. cbn [py_get bind]. fold (dict_get content (lit "parts")).
  rewrite Hi. cbn [bind]. rewrite Hc, Ht. unfold py_join.
  rewrite all_strings_fmap. cbn [bind]. now rewrite join_blob.
Qed.

Lemma collect_chunks_by_part_witness :
  collect_chunks (items_list (dict_get content_mixed (lit "parts")))
  = [JStr (lit "first"); JStr (lit "second")]
  /\ content_text nfkc_latin (JObj content_mixed)
     = Ok (lit "first" ++ [LF] ++ lit "second").
Proof.
  destruct (collect_chunks_by_part nfkc_latin
              (items_list (dict_get content_mixed (lit "parts")))) as [Hc Ht].
  split; [exact Hc|].
  apply (Ht content_mixed [lit "first"; lit "second"]); reflexivity.
Defined.

(** ** The message extractor: the walk over the mapping *)

Section Walk.

Lemma py_eq_str (a : json) (s : str) : py_eq a (JStr s) = true <-> a = JStr s.
Proof.
  destruct a; simpl; split; try easy.
  - intros H. apply str_eqb_eq in H. now subst.
  - intros H. injection H as ->. apply str_eqb_refl.
Qed.

Lemma dict_lookup_elem (k : str) (kvs : list (str * json)) (v : json) :
  dict_lookup k kvs = Some v -> (k, v) ∈ kvs.
Proof.
  induction kvs as [|[k' v'] kvs IH]; simpl; [easy|].
  destruct (str_eqb k k') eqn:E.
  - intros H. injection H as <-. apply str_eqb_eq in E. subst. apply elem_of_cons. now left.
  - intros H. apply elem_of_cons. right. now apply IH.
Qed.

Lemma seen_not_elem (k : str) (ks : list str) :
  existsb (fun e => py_eq e (JStr k)) (JStr <$> ks) = false -> k ∉ ks.
Proof.
  induction ks as [|k' ks IH]; simpl; [intros _; apply not_elem_of_nil|].
  intros H. apply orb_false_iff in H as [H1 H2].
  apply not_elem_of_cons. split; [|now apply IH].
  intros ->. now rewrite str_eqb_refl in H1.
Qed.

Lemma keys_bound (kvs : list (str * json)) (ks : list str) :
  NoDup ks -> (forall k, k ∈ ks -> k ∈ (fst <$> kvs)) ->
  (length ks <= length kvs)%nat.
Proof.
  intros Hn Hk. rewrite <- (length_fmap fst kvs).
  apply submseteq_length. now apply NoDup_submseteq.
Qed.

Lemma forallb_elem {A : Type} (f : A -> bool) (l : list A) (x : A) :
  forallb f l = true -> x ∈ l -> f x = true.
Proof.
  induction l as [|y l IH]; simpl; intros H Hx.
  - now apply elem_of_nil in Hx.
  - apply andb_true_iff in H as [H1 H2].
    apply elem_of_cons in Hx as [->|Hx]; [exact H1 | now apply IH].
Qed.

(** With a dict for mapping the loop ends, whatever the nodes and the
    identifiers are: by returning or by raising. *)
Lemma walk_ends (kvs : list (str * json)) (fuel : nat) :
  forall (current : json) (ks : list str) (acc : list json),
    NoDup ks -> (forall k, k ∈ ks -> k ∈ (fst <$> kvs)) ->
    (length kvs < fuel + length ks)%nat ->
    exists r, walk fuel (JObj kvs) current (JStr <$> ks) acc = Some r.
Proof.
  induction fuel as [|fuel IH]; intros current ks acc Hn Hk Hf.
  { pose proof (keys_bound kvs ks Hn Hk). simpl in Hf. lia. }
  cbn [walk]. unfold walk_cond.
  destruct (truthy current); [|now eexists].
  unfold py_in. destruct (hashable current) eqn:Hh; cbn [bind]; [|now eexists].
  destruct current as [| | | |k| |]; cbn [bind]; try now eexists.
  destruct (dict_lookup k kvs) as [node|] eqn:El; [|now eexists].
  unfold set_mem. cbn [hashable bind].
  destruct (existsb (fun e => py_eq e (JStr k)) (JStr <$> ks)) eqn:Es;
    cbn [negb]; [now eexists|].
  apply seen_not_elem in Es.
  destruct (walk_body (JObj kvs) (JStr k)) as [[node' parent]|e]; [|now eexists].
  apply (IH parent (k :: ks)).
  - now constructor.
  - intros k' Hk'. apply elem_of_cons in Hk' as [->|Hk']; [|now apply Hk].
    apply list_elem_of_fmap. exists (k, node). split; [reflexivity|].
    now apply dict_lookup_elem.
  - simpl. lia.
Qed.

Variable kvs : list (str * json).
Hypothesis Hnodes : node_mapping kvs = true.

(** The loop from any state it can reach: [seen] holds distinct keys of the
    mapping, and the fuel covers the keys not seen yet. *)
Lemma walk_visits (fuel : nat) :
  forall (current : json) (ks : list str) (acc : list json),
    hashable current = true -> NoDup ks ->
    (forall k, k ∈ ks -> k ∈ (fst <$> kvs)) ->
    (length kvs < fuel + length ks)%nat ->
    exists new nodes,
      walk fuel (JObj kvs) current (JStr <$> ks) acc
        = Some (Ok (JStr <$> (new ++ ks), acc ++ nodes))
      /\ NoDup (new ++ ks)
      /\ Forall2 (fun k node => dict_lookup k kvs = Some node) (reverse new) nodes.
Proof.
  induction fuel as [|fuel IH]; intros current ks acc Hh Hn Hk Hf.
  { pose proof (keys_bound kvs ks Hn Hk). simpl in Hf. lia. }
  assert (Hend : exists new nodes,
    Some (Ok (JStr <$> ks, acc)) =
      Some (Ok (JStr <$> (new ++ ks), acc ++ nodes)) /\ NoDup (new ++ ks)
    /\ Forall2 (fun k node => dict_lookup k kvs = Some node) (reverse new) nodes).
  { exists [], []. simpl. rewrite app_nil_r. repeat split; [exact Hn | constructor]. }
  cbn [walk]. unfold walk_cond.
  destruct (truthy current); [|exact Hend].
  unfold py_in. rewrite Hh.
  destruct current as [| | | |k| |]; cbn [bind]; try exact Hend.
  destruct (dict_lookup k kvs) as [node|] eqn:El; [|exact Hend].
  unfold set_mem. cbn [hashable bind].
  destruct (existsb (fun e => py_eq e (JStr k)) (JStr <$> ks)) eqn:Es;
    cbn [negb]; [exact Hend|].
  apply seen_not_elem in Es.
  pose proof (dict_lookup_elem _ _ _ El) as Hin.
  pose proof (forallb_elem _ _ _ Hnodes Hin) as Hnode. simpl in Hnode.
  unfold walk_body. cbn [py_getitem]. rewrite El. cbn [bind].
  destruct node as [| | | | | |n]; try discriminate Hnode.
  cbn [py_get bind].
  change (dict_get n (lit "parent")) with
    (match dict_lookup (lit "parent") n with Some v => v | None => JNull end) in Hnode.
  destruct (IH (match dict_lookup (lit "parent") n with Some v => v | None => JNull end)
              (k :: ks) (acc ++ [JObj n])) as (new & nodes & Hw & Hnd & Hf2).
  - exact Hnode.
  - now constructor.
  - intros k' Hk'. apply elem_of_cons in Hk' as [->|Hk']; [|now apply Hk].
    apply list_elem_of_fmap. now exists (k, JObj n).
  - simpl. lia.
  - exists (new ++ [k]), (JObj n :: nodes).
    change (JStr k :: (JStr <$> ks)) with (JStr <$> (k :: ks)).
    rewrite Hw. rewrite <- !app_assoc. simpl.
    repeat split; [exact Hnd|].
    rewrite reverse_snoc. now constructor.
Qed.

End Walk.

(** C5: for every mapping (a dict) and every value to start from, also
    when parent links form a cycle, the loop ends within as many turns as
    the mapping has items; when the values of the mapping are nodes and
    the start is an identifier (a hashable value), the loop returns, the
    identifiers it visited are pairwise distinct, and the sequence it
    returns holds the nodes of these identifiers, at most one per item of
    the mapping. *)
Theorem walk_terminates_without_revisit
    (kvs : list (str * json)) (current : json) (fuel : nat) :
  (length kvs < fuel)%nat ->
  (exists r, walk fuel (JObj kvs) current [] [] = Some r)
  /\ (node_mapping kvs = true -> hashable current = true ->
      exists ids nodes,
        walk fuel (JObj kvs) current [] [] = Some (Ok (JStr <$> ids, nodes))
        /\ NoDup ids
        /\ Forall2 (fun k node => dict_lookup k kvs = Some node) (reverse ids) nodes
        /\ (length nodes <= length kvs)%nat).
Proof.
  intros Hf. split.
  { apply (walk_ends kvs fuel current [] []).
    - constructor.
    - intros k Hk. now apply elem_of_nil in Hk.
    - simpl. lia. }
  intros Hm Hc.
  destruct (walk_visits kvs Hm fuel current [] [] Hc) as (new & nodes & Hw & Hn & Hf2).
  - constructor.
  - intros k Hk. now apply elem_of_nil in Hk.
  - simpl. lia.
  - rewrite app_nil_r in *. exists new, nodes. simpl in Hw.
    repeat split; try assumption.
    pose proof (Forall2_length _ _ _ Hf2) as Hlen.
    rewrite length_reverse in Hlen. rewrite <- Hlen.
    apply keys_bound; [exact Hn|].
    intros k Hk. apply elem_of_reverse in Hk.
    destruct (proj1 (list_elem_of_lookup _ _) Hk) as [i Hi].
    destruct (Forall2_lookup_l _ _ _ _ _ Hf2 Hi) as (node & _ & Hl).
    apply dict_lookup_elem in Hl. apply list_elem_of_fmap. now exists (k, node).
Qed.

Lemma walk_terminates_without_revisit_witness :
  (length cyclic_mapping < 3)%nat
  /\ node_mapping cyclic_mapping = true
  /\ hashable (JStr (lit "A")) = true
  /\ walk 3 (JObj cyclic_mapping) (JStr (lit "A")) [] []
     = Some (Ok ([JStr (lit "B"); JStr (lit "A")],
                 [JObj [(lit "parent", JStr (lit "B"))];
                  JObj [(lit "parent", JStr (lit "A"))]]))
  /\ exists ids nodes,
       walk 3 (JObj cyclic_mapping) (JStr (lit "A")) [] []
         = Some (Ok (JStr <$> ids, nodes))
       /\ NoDup ids
       /\ Forall2 (fun k node => dict_lookup k cyclic_mapping = Some node)
            (reverse ids) nodes
       /\ (length nodes <= length cyclic_mapping)%nat.
Proof.
  split; [simpl; lia|]. split; [reflexivity|]. split; [reflexivity|].
  split; [reflexivity|].
  apply (walk_terminates_without_revisit cyclic_mapping (JStr (lit "A")) 3);
    [simpl; lia | reflexivity | reflexivity].
Defined.

(** ** The message extractor: the messages *)

Section Messages.

Variable nfkc : str -> str.

Lemma messages_of_nodes_inv (nodes : list json) :
  forall acc msgs,
    messages_of_nodes nfkc nodes acc = Ok msgs ->
    exists new,
      msgs = acc ++ new
      /\ Forall (fun msg => exists node,
                   node ∈ nodes /\ node_message nfkc node = Ok (Some msg)) new.
Proof.
  induction nodes as [|node nodes IH]; intros acc msgs; cbn [messages_of_nodes].
  - intros H. injection H as <-. exists []. rewrite app_nil_r. now split.
  - destruct (node_message nfkc node) as [om|] eqn:E; cbn [bind]; [|discriminate].
    intros H. apply IH in H as (new & -> & Hnew).
    assert (Hrest : Forall (fun msg => exists n,
              n ∈ node :: nodes /\ node_message nfkc n = Ok (Some msg)) new).
    { eapply Forall_impl; [exact Hnew|]. intros msg (n & Hn & Hm).
      exists n. split; [|exact Hm]. apply elem_of_cons. now right. }
    destruct om as [msg|].
    + exists (msg :: new). rewrite <- app_assoc. split; [reflexivity|].
      constructor; [|exact Hrest]. exists node. split; [|exact E].
      apply elem_of_cons. now left.
    + now exists new.
Qed.

Lemma node_message_role (node : json) (msg : message) :
  node_message nfkc node = Ok (Some msg) ->
  exists m author,
    py_get node (lit "message") JNull = Ok m
    /\ resolve_author m = Ok author
    /\ role msg = assign_role author.
Proof.
  unfold node_message.
  destruct (py_get node (lit "message") JNull) as [m|] eqn:Em; cbn [bind]; [|discriminate].
  destruct (negb (truthy m)); [discriminate|].
  destruct (resolve_author m) as [author|] eqn:Ea; cbn [bind]; [|discriminate].
  destruct (skipped_system m author) as [[|]|]; cbn [bind]; try discriminate.
  destruct (py_get m (lit "content") JNull) as [c|]; cbn [bind]; [|discriminate].
  destruct (py_get (py_or c (JObj [])) (lit "content_type") JNull) as [ctype|];
    cbn [bind]; [|discriminate].
  destruct (negb _); [discriminate|].
  destruct (content_text nfkc (py_or c (JObj []))) as [t|]; cbn [bind]; [|discriminate].
  destruct (negb (nonempty t)); [discriminate|].
  intros H. injection H as <-. now exists m, author.
Qed.

Lemma assign_role_assistant (author : json) :
  assign_role author = lit "assistant" <-> author = JStr (lit "assistant").
Proof.
  unfold assign_role. rewrite <- py_eq_str.
  destruct (py_eq author (JStr (lit "assistant"))); split; easy.
Qed.

Lemma assign_role_user (author : json) :
  author <> JStr (lit "assistant") -> assign_role author = lit "user".
Proof.
  intros H. unfold assign_role.
  destruct (py_eq author (JStr (lit "assistant"))) eqn:E; [|reflexivity].
  now apply py_eq_str in E.
Qed.

Lemma messages_of_nodes_omap (nodes : list json) :
  forall acc msgs,
    messages_of_nodes nfkc nodes acc = Ok msgs ->
    exists oms,
      Forall2 (fun node om => node_message nfkc node = Ok om) nodes oms
      /\ msgs = acc ++ omap id oms.
Proof.
  induction nodes as [|node nodes IH]; intros acc msgs; cbn [messages_of_nodes].
  - intros H. injection H as <-. exists []. rewrite app_nil_r. now split.
  - destruct (node_message nfkc node) as [om|] eqn:E; cbn [bind]; [|discriminate].
    intros H. apply IH in H as (oms & Hf & ->).
    exists (om :: oms). split; [now constructor|].
    destruct om as [msg|]; simpl; [now rewrite <- app_assoc | reflexivity].
Qed.

Lemma resolve_author_raw (m author : json) :
  resolve_author m = Ok author ->
  exists a raw,
    py_get m (lit "author") JNull = Ok a
    /\ py_get (py_or a (JObj [])) (lit "role") (JStr []) = Ok raw
    /\ (author = JStr (lit "assistant")
        <-> raw = JStr (lit "assistant") \/ raw = JStr (lit "tool")
            \/ raw = JStr (lit "ChatGPT"))
    /\ (raw <> JStr (lit "tool") -> raw <> JStr (lit "ChatGPT") -> author = raw).
Proof.
  unfold resolve_author.
  destruct (py_get m (lit "author") JNull) as [a|] eqn:Ea; cbn [bind]; [|discriminate].
  destruct (py_get (py_or a (JObj [])) (lit "role") (JStr [])) as [raw|] eqn:Er;
    cbn [bind]; [|discriminate].
  intros H. injection H as <-. exists a, raw.
  split; [reflexivity|]. split; [exact Er|].
  destruct (py_eq raw (JStr (lit "tool"))) eqn:E1.
  { apply py_eq_str in E1. subst raw. cbn [orb]. split; [|easy].
    split; [intros _; right; now left | reflexivity]. }
  destruct (py_eq raw (JStr (lit "ChatGPT"))) eqn:E2.
  { apply py_eq_str in E2. subst raw. cbn [orb]. split; [|easy].
    split; [intros _; right; now right | reflexivity]. }
  cbn [orb]. split; [|reflexivity].
  split; [intros ->; now left|].
  intros [H|[H|H]]; [exact H| |].
  - apply py_eq_str in H. congruence.
  - apply py_eq_str in H. congruence.
Qed.

End Messages.

(** C7: the messages the extractor returns are, in order, the messages of
    the nodes its walk collected, taken from the root to the current node,
    and the role of the message of each such node is decided by the author
    role of that very node: the resolved author is the author role with
    [tool] and [ChatGPT] renamed to [assistant] (any other role is kept),
    the role of the message is [assistant] exactly when the resolved author
    is the string [assistant], and for any other author, a flagged system
    message included, it is [user]. *)
Theorem extracted_role_collapse
    (nfkc : str -> str) (fuel : nat) (conv : json) (msgs : list message) :
  extract_messages_from_mapping nfkc fuel conv = Some (Ok msgs) ->
  exists mapping current seen nodes oms,
    py_get conv (lit "mapping") (JObj []) = Ok mapping
    /\ py_get conv (lit "current_node") JNull = Ok current
    /\ walk fuel mapping current [] [] = Some (Ok (seen, nodes))
    /\ msgs = omap id oms
    /\ Forall2 (fun node om =>
         node_message nfkc node = Ok om
         /\ forall msg, om = Some msg ->
            exists m a raw author,
              py_get node (lit "message") JNull = Ok m
              /\ py_get m (lit "author") JNull = Ok a
              /\ py_get (py_or a (JObj [])) (lit "role") (JStr []) = Ok raw
              /\ resolve_author m = Ok author
              /\ (author = JStr (lit "assistant")
                  <-> raw = JStr (lit "assistant") \/ raw = JStr (lit "tool")
                      \/ raw = JStr (lit "ChatGPT"))
              /\ (raw <> JStr (lit "tool") -> raw <> JStr (lit "ChatGPT") ->
                  author = raw)
              /\ (role msg = lit "assistant" <-> author = JStr (lit "assistant"))
              /\ (author <> JStr (lit "assistant") -> role msg = lit "user"))
       (reverse nodes) oms.
Proof.
  unfold extract_messages_from_mapping.
  destruct (py_get conv (lit "mapping") (JObj [])) as [mapping|]; [|discriminate].
  destruct (py_get conv (lit "current_node") JNull) as [current|]; [|discriminate].
  destruct (walk fuel mapping current [] []) as [[[seen nodes]|]|] eqn:Ew;
    try discriminate.
  intros H. injection H as H.
  apply messages_of_nodes_omap in H as (oms & Hf & ->).
  exists mapping, current, seen, nodes, oms.
  do 2 (split; [reflexivity|]). split; [exact Ew|]. split; [reflexivity|].
  eapply Forall2_impl; [exact Hf|].
  intros node om Hm. split; [exact Hm|]. intros msg ->.
  destruct (node_message_role nfkc node msg Hm) as (m & author & H1 & H2 & H3).
  destruct (resolve_author_raw m author H2) as (a & raw & H4 & H5 & H6 & H7).
  exists m, a, raw, author. repeat split; try assumption.
  - apply H6.
  - apply H6.
  - rewrite H3. apply assign_role_assistant.
  - rewrite H3. apply assign_role_assistant.
  - rewrite H3. now apply assign_role_user.
Qed.

Lemma extracted_role_collapse_witness :
  extract_messages_from_mapping nfkc_latin 5 conv_roles = Some (Ok conv_roles_messages)
  /\ (
  exists mapping current seen nodes oms,
    py_get conv_roles (lit "mapping") (JObj []) = Ok mapping
    /\ py_get conv_roles (lit "current_node") JNull = Ok current
    /\ walk 5 mapping current [] [] = Some (Ok (seen, nodes))
    /\ conv_roles_messages = omap id oms
    /\ Forall2 (fun node om =>
         node_message nfkc_latin node = Ok om
         /\ forall msg, om = Some msg ->
            exists m a raw author,
              py_get node (lit "message") JNull = Ok m
              /\ py_get m (lit "author") JNull = Ok a
              /\ py_get (py_or a (JObj [])) (lit "role") (JStr []) = Ok raw
              /\ resolve_author m = Ok author
              /\ (author = JStr (lit "assistant")
                  <-> raw = JStr (lit "assistant") \/ raw = JStr (lit "tool")
                      \/ raw = JStr (lit "ChatGPT"))
              /\ (raw <> JStr (lit "tool") -> raw <> JStr (lit "ChatGPT") ->
                  author = raw)
              /\ (role msg = lit "assistant" <-> author = JStr (lit "assistant"))
              /\ (author <> JStr (lit "assistant") -> role msg = lit "user"))
       (reverse nodes) oms).
Proof.
  split; [reflexivity|].
  apply (extracted_role_collapse nfkc_latin 5 conv_roles). reflexivity.
Defined.

(** ** The message extractor: fields of the expected types *)

Section Typed.

Variable nfkc : str -> str.

(** [v or {}] is a dict when [v] is a dict or falsy. *)
Lemma dict_or_falsy_or (v : json) (ok : list (str * json) -> bool) :
  dict_or_falsy v ok = true ->
  exists d, py_or v (JObj []) = JObj d /\ (v = JObj d \/ d = []).
Proof.
  unfold py_or. destruct v as [| b | n | q | s | l | d]; simpl; intros H;
    try (apply negb_true_iff in H; rewrite H);
    try (exists []; split; [reflexivity | now right]).
  exists d. split; [now destruct d | now left].
Qed.

Lemma forallb_chars (s : str) :
  forallb part_ok (List.map (fun ch => JStr [ch]) s) = true.
Proof. induction s as [|c s IH]; simpl; [reflexivity | exact IH]. Qed.

Lemma forallb_keys (ks : list str) :
  forallb part_ok (List.map JStr ks) = true.
Proof. induction ks as [|k ks IH]; simpl; [reflexivity | exact IH]. Qed.

Lemma parts_ok_iter (ps : json) :
  parts_ok ps = true ->
  exists items, py_iter (py_or ps (JArr [])) = Ok items
                /\ forallb part_ok items = true.
Proof.
  unfold py_or. destruct ps as [| b | n | q | s | l | d]; simpl; intros H;
    try (apply negb_true_iff in H; rewrite H);
    try (exists []; now split).
  - destruct (nonempty s); [|exists []; now split].
    eexists. split; [reflexivity | apply forallb_chars].
  - destruct (nonempty l); [|exists []; now split].
    exists l. now split.
  - destruct (nonempty d); [|exists []; now split].
    eexists. split; [reflexivity | apply forallb_keys].
Qed.

Lemma chunks_are_strings (items : list json) :
  forallb part_ok items = true ->
  exists texts, omap chunk_of_part items = JStr <$> texts.
Proof.
  induction items as [|p items IH]; intros H.
  - now exists [].
  - simpl in H. apply andb_true_iff in H as [Hp Hi]. destruct (IH Hi) as [texts Ht].
    change (omap chunk_of_part (p :: items))
      with (match chunk_of_part p with
            | Some c => c :: omap chunk_of_part items
            | None => omap chunk_of_part items
            end).
    rewrite Ht. destruct p as [| b | n | q | s | l | d]; cbn [chunk_of_part];
      try now exists texts.
    + destruct (nonempty (strip s)); [now exists (s :: texts) | now exists texts].
    + cbn [part_ok] in Hp.
      destruct (dict_get d (lit "text")) as [| b | n | q | s | l | d'];
        simpl in *; try (apply negb_true_iff in Hp; rewrite Hp); try now exists texts.
      destruct (nonempty s); [now exists (s :: texts) | now exists texts].
Qed.

Lemma content_text_ok (ck : list (str * json)) :
  parts_ok (dict_get ck (lit "parts")) = true ->
  exists t, content_text nfkc (JObj ck) = Ok t.
Proof.
  intros H. unfold content_text. cbn [py_get bind].
  destruct (parts_ok_iter _ H) as (items & Hi & Hok).
  unfold dict_get in Hi. rewrite Hi. cbn [bind].
  unfold collect_chunks. rewrite fold_add_part. simpl app.
  destruct (chunks_are_strings _ Hok) as [texts Ht]. rewrite Ht.
  unfold py_join. rewrite all_strings_fmap. cbn [bind]. now eexists.
Qed.

Lemma get_dict (d : list (str * json)) (k : str) :
  py_get (JObj d) k JNull = Ok (dict_get d k).
Proof. reflexivity. Qed.

Lemma resolve_author_ok (mk : list (str * json)) :
  dict_or_falsy (dict_get mk (lit "author")) (fun _ => true) = true ->
  exists author, resolve_author (JObj mk) = Ok author.
Proof.
  intros H. unfold resolve_author. rewrite get_dict. cbn [bind].
  destruct (dict_or_falsy_or _ _ H) as (d & -> & _).
  cbn [py_get bind]. now eexists.
Qed.

Lemma skipped_system_ok (mk : list (str * json)) (author : json) :
  dict_or_falsy (dict_get mk (lit "metadata")) (fun _ => true) = true ->
  exists b, skipped_system (JObj mk) author = Ok b.
Proof.
  intros H. unfold skipped_system.
  destruct (py_eq author (JStr (lit "system"))); [|now eexists].
  rewrite get_dict. cbn [bind].
  destruct (dict_or_falsy_or _ _ H) as (d & -> & _).
  cbn [py_get bind]. now eexists.
Qed.

Lemma node_message_of_message_ok (n : list (str * json)) :
  message_ok (dict_get n (lit "message")) = true ->
  exists om, node_message nfkc (JObj n) = Ok om.
Proof.
  intros H.
  unfold node_message. rewrite get_dict. cbn [bind].
  generalize dependent (dict_get n (lit "message")). intros m H.
  destruct (truthy m) eqn:Et; cbn [negb]; [|now eexists].
  unfold message_ok in H.
  destruct m as [| | | | | |mk];
    try (unfold dict_or_falsy in H; rewrite Et in H; discriminate H).
  cbn [dict_or_falsy] in H.
  apply andb_true_iff in H as [H Hc]. apply andb_true_iff in H as [Ha Hmd].
  destruct (resolve_author_ok mk Ha) as [author ->]. cbn [bind].
  destruct (skipped_system_ok mk author Hmd) as [skip ->]. cbn [bind].
  destruct skip; [now eexists|].
  rewrite get_dict. cbn [bind].
  destruct (dict_or_falsy_or _ _ Hc) as (d & Hd & Hor). rewrite Hd.
  rewrite get_dict. cbn [bind].
  destruct (negb _); [now eexists|].
  assert (Hp : parts_ok (dict_get d (lit "parts")) = true).
  { destruct Hor as [E| ->]; [|reflexivity]. now rewrite E in Hc. }
  destruct (content_text_ok d Hp) as [t ->]. cbn [bind].
  destruct (negb (nonempty t)); now eexists.
Qed.

Lemma node_message_ok (node : json) :
  node_ok node = true -> exists om, node_message nfkc node = Ok om.
Proof.
  destruct node as [| | | | | |n]; try discriminate. simpl node_ok.
  intros H. apply andb_true_iff in H as [_ H].
  now apply node_message_of_message_ok.
Qed.

Lemma node_message_typed (node : json) :
  node_typed node = true -> exists om, node_message nfkc node = Ok om.
Proof.
  destruct node as [| | | | | |n]; try discriminate. simpl node_typed.
  intros H. apply andb_true_iff in H as [_ H].
  now apply node_message_of_message_ok.
Qed.

Lemma messages_of_nodes_typed (nodes : list json) :
  Forall (fun node => node_typed node = true) nodes ->
  forall acc, exists msgs, messages_of_nodes nfkc nodes acc = Ok msgs.
Proof.
  induction 1 as [|node nodes Hn _ IH]; intros acc; cbn [messages_of_nodes].
  - now eexists.
  - destruct (node_message_typed node Hn) as [om ->]. cbn [bind]. apply IH.
Qed.

(** The loop over a mapping of typed nodes ends without raising, on nodes of
    the mapping, within as many turns as the mapping has items and one
    more. *)
Lemma walk_typed (kvs : list (str * json)) (fuel : nat) :
  forallb (fun kv => node_typed (snd kv)) kvs = true ->
  forall (current : json) (ks : list str) (acc : list json),
    id_ok current = true -> NoDup ks ->
    (forall k, k ∈ ks -> k ∈ (fst <$> kvs)) ->
    (length kvs < fuel + length ks)%nat ->
    Forall (fun node => node_typed node = true) acc ->
    exists seen nodes,
      walk fuel (JObj kvs) current (JStr <$> ks) acc = Some (Ok (seen, nodes))
      /\ Forall (fun node => node_typed node = true) nodes.
Proof.
  intros Hnodes.
  induction fuel as [|fuel IH]; intros current ks acc Hh Hn Hk Hf Hacc.
  { pose proof (keys_bound kvs ks Hn Hk). simpl in Hf. lia. }
  assert (Hend : exists seen nodes,
    Some (Ok (JStr <$> ks, acc)) = Some (Ok (seen, nodes))
    /\ Forall (fun node => node_typed node = true) nodes).
  { now exists (JStr <$> ks), acc. }
  cbn [walk]. unfold walk_cond.
  destruct (truthy current) eqn:Et; [|exact Hend].
  unfold id_ok in Hh. rewrite Et in Hh. cbn [negb orb] in Hh.
  unfold py_in. rewrite Hh.
  destruct current as [| | | |k| |]; cbn [bind]; try exact Hend.
  destruct (dict_lookup k kvs) as [node|] eqn:El; [|exact Hend].
  unfold set_mem. cbn [hashable bind].
  destruct (existsb (fun e => py_eq e (JStr k)) (JStr <$> ks)) eqn:Es;
    cbn [negb]; [exact Hend|].
  apply seen_not_elem in Es.
  pose proof (dict_lookup_elem _ _ _ El) as Hin.
  pose proof (forallb_elem _ _ _ Hnodes Hin) as Hnode. simpl in Hnode.
  unfold walk_body. cbn [py_getitem]. rewrite El. cbn [bind].
  destruct node as [| | | | | |n]; try discriminate Hnode.
  cbn [py_get bind].
  pose proof Hnode as Hparent. cbn [node_typed] in Hparent.
  apply andb_true_iff in Hparent as [Hparent _].
  change (dict_get n (lit "parent")) with
    (match dict_lookup (lit "parent") n with Some v => v | None => JNull end) in Hparent.
  apply (IH _ (k :: ks) (acc ++ [JObj n])).
  - exact Hparent.
  - now constructor.
  - intros k' Hk'. apply elem_of_cons in Hk' as [->|Hk']; [|now apply Hk].
    apply list_elem_of_fmap. now exists (k, JObj n).
  - simpl. lia.
  - apply Forall_app. split; [exact Hacc|]. now constructor.
Qed.

(** With a mapping of typed nodes the function returns messages. *)
Lemma extract_typed (mapping : list (str * json)) (current : json) (fuel : nat) :
  forallb (fun kv => node_typed (snd kv)) mapping = true ->
  id_ok current = true -> (length mapping < fuel)%nat ->
  exists msgs,
    match walk fuel (JObj mapping) current [] [] with
    | None => None
    | Some (Raise e) => Some (Raise e)
    | Some (Ok (_, ordered_nodes)) =>
      Some (messages_of_nodes nfkc (reverse ordered_nodes) [])
    end = Some (Ok msgs).
Proof.
  intros Hm Hc Hf.
  destruct (walk_typed mapping fuel Hm current [] [] Hc)
    as (seen & nodes & Hw & Hn).
  - constructor.
  - intros k Hk. now apply elem_of_nil in Hk.
  - simpl. lia.
  - constructor.
  - simpl in Hw. rewrite Hw.
    destruct (messages_of_nodes_typed (reverse nodes)) with (acc := @nil message)
      as [msgs ->]; [|now exists msgs].
    now apply Forall_reverse.
Qed.

(** The typed conversations include those of [conv_ok]. *)
Lemma node_ok_typed (node : json) : node_ok node = true -> node_typed node = true.
Proof.
  destruct node as [| | | | | |n]; try discriminate. cbn [node_ok node_typed].
  intros H. apply andb_true_iff in H as [Hp Hm].
  unfold id_ok. now rewrite Hp, Hm, orb_true_r.
Qed.

Lemma conv_ok_typed (conv : json) : conv_ok conv = true -> conv_typed conv = true.
Proof.
  destruct conv as [| | | | | |c]; try discriminate. unfold conv_ok, conv_typed.
  intros H. apply andb_true_iff in H as [Hm Hc]. rewrite Hc. cbn [andb].
  apply orb_true_iff. right.
  destruct (dict_lookup (lit "mapping") c) as [[| | | | | |mapping]|];
    try discriminate; [|reflexivity].
  apply forallb_forall. intros kv Hin.
  apply node_ok_typed. revert kv Hin. now apply forallb_forall.
Qed.

(** With a falsy current node the loop ends at once, whatever the mapping. *)
Lemma walk_falsy (fuel : nat) (mapping current : json) (seen acc : list json) :
  truthy current = false ->
  walk (S fuel) mapping current seen acc = Some (Ok (seen, acc)).
Proof. intros H. cbn [walk]. unfold walk_cond. now rewrite H. Qed.

Lemma messages_of_nodes_ok (nodes : list json) :
  Forall (fun node => node_ok node = true) nodes ->
  forall acc, exists msgs, messages_of_nodes nfkc nodes acc = Ok msgs.
Proof.
  induction 1 as [|node nodes Hn _ IH]; intros acc; cbn [messages_of_nodes].
  - now eexists.
  - destruct (node_message_ok node Hn) as [om ->]. cbn [bind]. apply IH.
Qed.

Lemma node_ok_is_node (mapping : list (str * json)) :
  forallb (fun kv => node_ok (snd kv)) mapping = true -> node_mapping mapping = true.
Proof.
  unfold node_mapping. induction mapping as [|[k v] mapping IH]; simpl; [easy|].
  intros H. apply andb_true_iff in H as [H1 H2]. rewrite (IH H2), andb_true_r.
  destruct v; try discriminate. simpl in *. now apply andb_true_iff in H1 as [H1 _].
Qed.

(** With a mapping of well-typed nodes the function returns messages. *)
Lemma extract_ok (mapping : list (str * json)) (current : json) (fuel : nat) :
  forallb (fun kv => node_ok (snd kv)) mapping = true ->
  hashable current = true -> (length mapping < fuel)%nat ->
  exists msgs,
    match walk fuel (JObj mapping) current [] [] with
    | None => None
    | Some (Raise e) => Some (Raise e)
    | Some (Ok (_, ordered_nodes)) =>
      Some (messages_of_nodes nfkc (reverse ordered_nodes) [])
    end = Some (Ok msgs).
Proof.
  intros Hm Hc Hf.
  destruct (walk_visits mapping (node_ok_is_node _ Hm) fuel current [] [] Hc)
    as (new & nodes & Hw & _ & Hf2).
  - constructor.
  - intros k Hk. now apply elem_of_nil in Hk.
  - simpl. lia.
  - simpl in Hw. rewrite Hw.
    destruct (messages_of_nodes_ok (reverse nodes)) with (acc := @nil message)
      as [msgs ->]; [|now exists msgs].
    apply Forall_reverse. apply Forall_forall. intros node Hn.
    destruct (proj1 (list_elem_of_lookup _ _) Hn) as [i Hi].
    destruct (Forall2_lookup_r _ _ _ _ _ Hf2 Hi) as (k & _ & Hl).
    apply dict_lookup_elem in Hl.
    apply (forallb_elem _ _ _ Hm Hl).
Qed.

End Typed.

(** C2, the claim as stated fails: a structured part whose [text] field is
    the number 5 is added to the chunks, and joining the chunks raises. *)
Lemma extract_raises_on_number_text :
  extract_messages_from_mapping nfkc_latin 2 conv_number_text = Some (Raise TypeError).
Proof. reflexivity. Qed.

(** C2, amended: the extractor returns a list of messages, possibly empty,
    and does not raise, on every conversation that is a dict and either
    has a missing or falsy current node (the result is then empty, whatever
    the mapping is), or has a hashable current node and a mapping that is
    missing or a dict whose values are all dicts with a parent that is
    missing, falsy or hashable and a message that is missing, falsy or a
    dict in which author, metadata and content are each missing, falsy or
    a dict, the parts of the content are missing, falsy, a list, a string
    or a dict, and the [text] field of each structured part in a list of
    parts is missing, falsy or a string.  The loop of the walk ends within
    one turn more than the mapping has items. *)
Theorem extract_completes_on_typed_fields
    (nfkc : str -> str) (conv : json) (fuel : nat) :
  conv_typed conv = true -> (mapping_size conv < fuel)%nat ->
  exists msgs, extract_messages_from_mapping nfkc fuel conv = Some (Ok msgs).
Proof.
  destruct conv as [| | | | | |c]; try discriminate.
  unfold conv_typed, mapping_size, extract_messages_from_mapping.
  cbn [py_get]. fold (dict_get c (lit "current_node")).
  intros H Hf.
  destruct (truthy (dict_get c (lit "current_node"))) eqn:Et.
  - cbn [negb orb] in H. apply andb_true_iff in H as [Hc Hm].
    assert (Hid : id_ok (dict_get c (lit "current_node")) = true).
    { unfold id_ok. rewrite Hc. apply orb_true_r. }
    destruct (dict_lookup (lit "mapping") c) as [mapping|].
    + destruct mapping as [| | | | | |mapping]; try discriminate.
      now apply extract_typed.
    + apply extract_typed; [reflexivity | exact Hid | simpl; lia].
  - destruct fuel as [|fuel]; [lia|].
    rewrite walk_falsy by exact Et. now exists [].
Qed.

Lemma extract_completes_on_typed_fields_witness :
  conv_typed conv_sparse = true
  /\ extract_messages_from_mapping nfkc_latin 6 conv_sparse
     = Some (Ok conv_sparse_messages)
  /\ exists msgs,
       extract_messages_from_mapping nfkc_latin 6 conv_sparse = Some (Ok msgs).
Proof.
  split; [reflexivity|]. split; [reflexivity|].
  apply (extract_completes_on_typed_fields nfkc_latin conv_sparse 6);
    [reflexivity | simpl; lia].
Defined.

(** A null mapping is not read when the current node is falsy, and parents
    that are an empty list or an empty dict end the walk. *)
Lemma extract_on_falsy_identifiers :
  conv_typed conv_null_mapping = true
  /\ extract_messages_from_mapping nfkc_latin 1 conv_null_mapping = Some (Ok [])
  /\ conv_typed conv_falsy_parents = true
  /\ extract_messages_from_mapping nfkc_latin 3 conv_falsy_parents
     = Some (Ok [ {| role := lit "assistant"; text := lit "Hello!" |} ]).
Proof. repeat split. Qed.

(** A null mapping with a truthy current node is outside the typed
    conversations, and the extractor raises on it. *)
Lemma extract_raises_on_null_mapping :
  conv_typed (JObj [ (lit "mapping", JNull); (lit "current_node", JStr (lit "A")) ])
  = false
  /\ extract_messages_from_mapping nfkc_latin 2
       (JObj [ (lit "mapping", JNull); (lit "current_node", JStr (lit "A")) ])
     = Some (Raise TypeError).
Proof. split; reflexivity. Qed.

(** ** The scenarios of the specification *)

(** Two nodes, a user turn and its answer: two messages, one pair. *)
Example scenario_hello :
  extract_messages_from_mapping nfkc_latin 3 conv_hello
  = Some (Ok [ {| role := lit "user"; text := lit "Hi" |};
               {| role := lit "assistant"; text := lit "Hello!" |} ])
  /\ messages_to_pairs [ {| role := lit "user"; text := lit "Hi" |};
                         {| role := lit "assistant"; text := lit "Hello!" |} ]
     = [ {| prompt := lit "Hi"; completion := lit "Hello!" |} ].
Proof. split; reflexivity. Qed.

(** Two user messages in a row make one prompt, joined by a blank line. *)
Example scenario_merged_prompt :
  messages_to_pairs [ {| role := lit "user"; text := lit "Part 1" |};
                      {| role := lit "user"; text := lit "Part 2" |};
                      {| role := lit "assistant"; text := lit "OK" |} ]
  = [ {| prompt := lit "Part 1" ++ [LF; LF] ++ lit "Part 2";
         completion := lit "OK" |} ].
Proof. reflexivity. Qed.

(** User messages without an answer after them make no pair. *)
Example scenario_trailing_user :
  messages_to_pairs [ {| role := lit "user"; text := lit "Anyone?" |} ] = [].
Proof. reflexivity. Qed.

(** Each run of characters that are not allowed becomes one underscore. *)
Example scenario_title :
  sanitize_filename isalnum_ascii (lit "My/Chat: Test?") 120 = lit "My_Chat_ Test_".
Proof. reflexivity. Qed.

(** ** The text normalizer: further results *)

Section NormalizerFacts.

Lemma starts_with_app (p s : str) :
  starts_with p s = true -> exists r, s = p ++ r.
Proof.
  revert s. induction p as [|a p IH]; intros s H.
  - now exists s.
  - destruct s as [|b s]; simpl in H; [easy|].
    apply andb_true_iff in H as [H1 H2]. apply N.eqb_eq in H1. subst b.
    destruct (IH s H2) as [r ->]. now exists r.
Qed.

Lemma contains_occurs (p s : str) : contains p s = true -> occurs p s.
Proof.
  induction s as [|c s IH]; simpl; intros H.
  - rewrite orb_false_r in H. apply starts_with_app in H as [r ->].
    now exists [], r.
  - apply orb_true_iff in H as [H|H].
    + apply starts_with_app in H as [r ->]. now exists [], r.
    + destruct (IH H) as (l1 & l2 & ->). now exists (c :: l1), l2.
Qed.

Lemma starts_with_prefix (p r : str) : starts_with p (p ++ r) = true.
Proof. induction p as [|a p IH]; simpl; [reflexivity|]. now rewrite N.eqb_refl. Qed.

Lemma occurs_contains (p s : str) : occurs p s -> contains p s = true.
Proof.
  intros (l1 & l2 & ->). induction l1 as [|c l1 IH].
  - simpl. destruct (p ++ l2) eqn:E; simpl.
    + rewrite <- E, starts_with_prefix. reflexivity.
    + rewrite <- E, starts_with_prefix. reflexivity.
  - simpl. rewrite IH. apply orb_true_r.
Qed.

Lemma not_contains_occurs (p s : str) : contains p s = false -> ~ occurs p s.
Proof. intros H Ho. apply occurs_contains in Ho. congruence. Qed.

Lemma not_occurs_contains (p s : str) : ~ occurs p s -> contains p s = false.
Proof.
  intros H. destruct (contains p s) eqn:E; [|reflexivity].
  exfalso. apply H. now apply contains_occurs.
Qed.

(** Where the check for three line feeds fails, three line feeds stand in
    a row, counting the [n] before the string. *)
Lemma lf_run_ok_complete (s : str) :
  forall n, (n <= 2)%nat -> lf_run_ok n s = false ->
            occurs [LF; LF; LF] (replicate n LF ++ s).
Proof.
  induction s as [|c s IH]; intros n Hn H; [easy|].
  simpl in H. destruct (c =? LF) eqn:E.
  - apply N.eqb_eq in E. subst c. apply andb_false_iff in H as [H|H].
    + apply Nat.ltb_ge in H. assert (n = 2%nat) as -> by lia.
      now exists [], s.
    + destruct (Nat.eq_dec n 2%nat) as [->|Hne]; [now exists [], s|].
      destruct (IH (S n)) as (l1 & l2 & E); [lia | exact H |].
      exists l1, l2. rewrite <- E.
      rewrite replicate_S_end. now rewrite <- app_assoc.
  - destruct (IH 0%nat) as (l1 & l2 & E'); [lia | exact H |].
    simpl in E'. exists (replicate n LF ++ c :: l1), l2.
    rewrite E'. now rewrite <- app_assoc.
Qed.

Lemma not_occurs_lf_run_ok (s : str) :
  ~ occurs [LF; LF; LF] s -> lf_run_ok 0 s = true.
Proof.
  intros H. destruct (lf_run_ok 0 s) eqn:E; [reflexivity|].
  exfalso. apply H. apply (lf_run_ok_complete s 0%nat); [lia | exact E].
Qed.

Lemma quote_run_end (s : str) :
  (forall u, s <> u ++ [DQ; DQ]) <-> (quote_run s <= 1)%nat.
Proof.
  unfold quote_run. split.
  - intros H. destruct s as [|y u _] using rev_ind; [simpl; lia|].
    rewrite reverse_snoc. simpl. destruct (y =? DQ) eqn:Ey; [|lia].
    apply N.eqb_eq in Ey. subst y.
    destruct u as [|z u _] using rev_ind; [simpl; lia|].
    rewrite reverse_snoc. simpl. destruct (z =? DQ) eqn:Ez; [|lia].
    apply N.eqb_eq in Ez. subst z. exfalso. apply (H u).
    now rewrite <- app_assoc.
  - intros H u ->. rewrite reverse_app in H. simpl in H. lia.
Qed.

Lemma lstrip_blank (s : str) :
  Forall (fun c => isspace c = true) s -> lstrip s = [].
Proof. induction 1 as [|c s Hc _ IH]; simpl; [easy|]. now rewrite Hc. Qed.

Lemma replace_single_map (x y : N) (s : str) :
  replace [x] [y] s = (fun c => if c =? x then y else c) <$> s.
Proof.
  unfold replace. induction s as [|c s IH]; [reflexivity|].
  cbn [replace_from starts_with length pred fmap list_fmap].
  rewrite (N.eqb_sym x c). destruct (c =? x); simpl; now rewrite IH.
Qed.

(** The replacement of line 60 for CRLF, read from the left. *)
Lemma replace_crlf_cons (c : N) (s : str) :
  replace_from [CR; LF] [LF] 0 (c :: s) =
  if c =? CR
  then match s with
       | d :: r => if d =? LF then LF :: replace_from [CR; LF] [LF] 0 r
                   else c :: replace_from [CR; LF] [LF] 0 s
       | [] => [c]
       end
  else c :: replace_from [CR; LF] [LF] 0 s.
Proof.
  cbn [replace_from starts_with length pred].
  rewrite (N.eqb_sym CR c). destruct (c =? CR); [|reflexivity].
  destruct s as [|d r]; [reflexivity|].
  cbn [starts_with replace_from andb]. rewrite (N.eqb_sym LF d).
  now destruct (d =? LF).
Qed.

Lemma line_endings_unified_upto (n : nat) :
  forall s, (length s <= n)%nat -> normalize_line_endings s = unify_line_endings s.
Proof.
  unfold normalize_line_endings. change (replace [CR; LF] [LF]) with (replace_from [CR; LF] [LF] 0).
  induction n as [|n IH]; intros s Hs.
  { destruct s; [reflexivity | simpl in Hs; lia]. }
  destruct s as [|c s]; [reflexivity|].
  rewrite replace_crlf_cons. cbn [unify_line_endings].
  destruct (c =? CR) eqn:Ec.
  - apply N.eqb_eq in Ec. subst c. destruct s as [|d r]; [reflexivity|].
    destruct (d =? LF) eqn:Ed.
    + rewrite replace_single_map. cbn [fmap list_fmap].
      rewrite <- replace_single_map. simpl (LF =? CR). cbv iota.
      f_equal. apply IH. simpl in *. lia.
    + rewrite replace_single_map. cbn [fmap list_fmap].
      rewrite <- replace_single_map. rewrite N.eqb_refl. f_equal.
      apply IH. simpl in *. lia.
  - rewrite replace_single_map. cbn [fmap list_fmap].
    rewrite <- replace_single_map. rewrite Ec. f_equal.
    apply IH. simpl in *. lia.
Qed.

(** An LF run after a character that is not a line feed, or at the start. *)
Lemma collapse_from_run (k n : nat) (b : str) :
  (forall c, head b = Some c -> c <> LF) ->
  collapse_from k (replicate n LF ++ b) =
  replicate (Nat.min (k + n) 2 - Nat.min k 2) LF ++ collapse_from 0 b.
Proof.
  intros Hb. revert k. induction n as [|n IH]; intros k.
  - simpl. replace (Nat.min (k + 0) 2 - Nat.min k 2)%nat with 0%nat by lia.
    simpl. destruct b as [|c b]; [reflexivity|].
    simpl. rewrite (eqb_false_ne c LF) by now apply Hb. reflexivity.
  - cbn [replicate app collapse_from]. rewrite N.eqb_refl.
    destruct (k <? 2)%nat eqn:Ek.
    + apply Nat.ltb_lt in Ek. rewrite IH.
      replace (Nat.min (k + S n) 2 - Nat.min k 2)%nat
        with (S (Nat.min (S k + n) 2 - Nat.min (S k) 2)) by lia.
      reflexivity.
    + apply Nat.ltb_ge in Ek. rewrite IH. f_equal. f_equal. lia.
Qed.

Lemma collapse_from_app (k : nat) (a rest : str) :
  a <> [] -> (forall c, last a = Some c -> c <> LF) ->
  collapse_from k (a ++ rest) = collapse_from k a ++ collapse_from 0 rest.
Proof.
  intros Hne Hl. revert k. induction a as [|c a IH]; intros k; [easy|].
  destruct a as [|d a].
  - simpl. rewrite (eqb_false_ne c LF) by now apply Hl. reflexivity.
  - assert (IH' : forall k, collapse_from k ((d :: a) ++ rest)
                  = collapse_from k (d :: a) ++ collapse_from 0 rest).
    { apply IH; [easy|]. intros x Hx. apply Hl. now rewrite last_cons_cons. }
    cbn [app collapse_from] in *.
    destruct (c =? LF); [destruct (k <? 2)%nat|]; now rewrite ?IH'.
Qed.

End NormalizerFacts.

(** X1: whatever the input and the Unicode normalization, the output of
    [clean_text] has no carriage return, no tab and no no-break space. *)
Theorem clean_text_no_cr_tab_nbsp (nfkc : str -> str) (s : option str) :
  (CR ∉ clean_text nfkc s) /\ (TAB ∉ clean_text nfkc s)
  /\ (NBSP ∉ clean_text nfkc s).
Proof.
  destruct s as [s|]; cbn [clean_text].
  - repeat split; [apply clean_rest_no_CR | apply clean_rest_no_TAB
                   | apply clean_rest_no_NBSP].
  - repeat split; apply not_elem_of_nil.
Qed.

(** X2: the output of [clean_text] never ends with two double quotes. *)
Theorem clean_text_no_double_quote_end (nfkc : str -> str) (s : option str) (u : str) :
  clean_text nfkc s <> u ++ [DQ; DQ].
Proof.
  revert u. apply quote_run_end. destruct s as [s|]; cbn [clean_text].
  - apply clean_rest_shape.
  - unfold quote_run. simpl. lia.
Qed.

(** X3: a string that is all whitespace after the Unicode normalization,
    the empty string included, is normalized to the empty string. *)
Theorem clean_text_blank (nfkc : str -> str) (s : str) :
  Forall (fun c => isspace c = true) (nfkc s) -> clean_text nfkc (Some s) = [].
Proof.
  cbn [clean_text]. generalize (nfkc s). clear s. intros s Hs.
  assert (Hb' : forall (t p : str), Forall (fun c => isspace c = true) t ->
                  0xE2 ∈ p -> contains p t = false).
  { intros t p Ht Hp. apply (not_contains p t 0xE2 Hp).
    intros Hin. rewrite Forall_forall in Ht. now apply Ht in Hin. }
  assert (H1 : Forall (fun c => isspace c = true) (normalize_line_endings s)).
  { unfold normalize_line_endings.
    apply replace_Forall; [discriminate | now repeat constructor |].
    apply replace_Forall; [discriminate | now repeat constructor | exact Hs]. }
  assert (H2 : Forall (fun c => isspace c = true)
                 (standardize_tabs (normalize_line_endings s))).
  { unfold standardize_tabs.
    apply replace_Forall; [discriminate | now repeat constructor |].
    rewrite replace_absent; [exact H1 | discriminate |].
    apply Hb'; [exact H1|]. apply elem_of_cons. right. apply elem_of_cons. now left. }
  assert (H3 : standardize_bullets (standardize_tabs (normalize_line_endings s))
               = standardize_tabs (normalize_line_endings s)).
  { unfold standardize_bullets.
    rewrite (replace_absent (BULLET ++ [TAB])); [|discriminate|].
    - apply replace_absent; [discriminate|].
      apply Hb'; [exact H2|]. apply elem_of_cons. now left.
    - apply Hb'; [exact H2|]. apply elem_of_cons. now left. }
  assert (E : strip (replace [NBSP] [SP]
                 (standardize_tabs (normalize_line_endings s))) = []).
  { unfold strip. rewrite lstrip_blank; [reflexivity|].
    apply replace_Forall; [discriminate | now repeat constructor | exact H2]. }
  rewrite clean_rest_tail, H3. unfold tail_steps. now rewrite E.
Qed.

Lemma clean_text_blank_witness :
  Forall (fun c => isspace c = true) (nfkc_latin blank_text)
  /\ clean_text nfkc_latin (Some blank_text) = [].
Proof.
  split; [now repeat constructor|].
  apply (clean_text_blank nfkc_latin blank_text). now repeat constructor.
Defined.

(** X4: a text that the Unicode normalization leaves as it is, that neither
    starts nor ends with whitespace, has no carriage return, tab or
    no-break space, nowhere the bullet literal followed by two spaces,
    nowhere three line feeds in a row and no two double quotes at its end,
    is returned by [clean_text] unchanged. *)
Theorem clean_text_keeps_tidy_text (nfkc : str -> str) (s : str) :
  nfkc s = s -> stripped s ->
  CR ∉ s -> TAB ∉ s -> NBSP ∉ s ->
  ~ occurs (BULLET ++ lit "  ") s ->
  ~ occurs [LF; LF; LF] s ->
  (forall u, s <> u ++ [DQ; DQ]) ->
  clean_text nfkc (Some s) = s.
Proof.
  intros Hn Hs Hcr Htab Hnb Hb Hl Hq. cbn [clean_text]. rewrite Hn.
  apply clean_rest_fixed; try assumption.
  - now apply quote_run_end.
  - now apply not_occurs_lf_run_ok.
  - now apply not_occurs_contains.
Qed.

Lemma clean_text_keeps_tidy_text_witness :
  nfkc_latin tidy_text = tidy_text
  /\ clean_text nfkc_latin (Some tidy_text) = tidy_text.
Proof.
  split; [reflexivity|].
  apply (clean_text_keeps_tidy_text nfkc_latin tidy_text).
  - reflexivity.
  - split; intros c H; vm_compute in H; injection H as <-; reflexivity.
  - apply Forall_ne. vm_compute. repeat constructor; discriminate.
  - apply Forall_ne. vm_compute. repeat constructor; discriminate.
  - apply Forall_ne. vm_compute. repeat constructor; discriminate.
  - apply not_contains_occurs. reflexivity.
  - apply not_contains_occurs. reflexivity.
  - apply quote_run_end. vm_compute. lia.
Defined.

(** X5: between a text that does not end in a line feed and a text that
    does not start with one, a run of [n] line feeds is cut to two when it
    is longer and kept as it is otherwise; the texts on both sides are
    handled on their own. *)
Theorem sub_newline_runs_run (a : str) (n : nat) (b : str) :
  (forall c, last a = Some c -> c <> LF) ->
  (forall c, head b = Some c -> c <> LF) ->
  sub_newline_runs (a ++ replicate n LF ++ b) =
  sub_newline_runs a ++ replicate (Nat.min n 2) LF ++ sub_newline_runs b.
Proof.
  intros Ha Hb. unfold sub_newline_runs.
  destruct a as [|x a].
  - simpl app. rewrite (collapse_from_run 0 n b Hb). simpl.
    now replace (Nat.min n 2 - 0)%nat with (Nat.min n 2) by lia.
  - rewrite collapse_from_app; [|easy | exact Ha].
    rewrite (collapse_from_run 0 n b Hb). simpl Nat.min.
    now rewrite Nat.sub_0_r.
Qed.

Lemma sub_newline_runs_run_witness :
  sub_newline_runs (lit "x" ++ replicate 5 LF ++ lit "y")
  = sub_newline_runs (lit "x") ++ replicate (Nat.min 5 2) LF
    ++ sub_newline_runs (lit "y").
Proof.
  apply (sub_newline_runs_run (lit "x") 5 (lit "y"));
    intros c H; vm_compute in H; injection H as <-; discriminate.
Defined.

(** X6: the line-ending step of line 60 turns every CR that has a line feed
    after it, together with that line feed, into one line feed, every other
    CR into one line feed, and keeps all other characters in their order. *)
Theorem line_endings_unified (s : str) :
  normalize_line_endings s = unify_line_endings s.
Proof. apply (line_endings_unified_upto (length s)). lia. Qed.

(** ** The message extractor: further results *)

Section ExtractorFacts.

Variable nfkc : str -> str.

Lemma seen_elem (k : str) (ks : list str) :
  existsb (fun e => py_eq e (JStr k)) (JStr <$> ks) = true -> k ∈ ks.
Proof.
  induction ks as [|k' ks IH]; simpl; [easy|].
  intros H. apply orb_true_iff in H as [H|H].
  - apply str_eqb_eq in H. subst. apply elem_of_cons. now left.
  - apply elem_of_cons. right. now apply IH.
Qed.

(** What the loop returns is the path of [walked], with its nodes. *)
Lemma walk_ok_walked (kvs : list (str * json)) (fuel : nat) :
  forall (current : json) (ks : list str) (acc seen' nodes' : list json),
    walk fuel (JObj kvs) current (JStr <$> ks) acc = Some (Ok (seen', nodes')) ->
    exists ids nodes,
      walked kvs ks current ids
      /\ seen' = JStr <$> (reverse ids ++ ks)
      /\ nodes' = acc ++ nodes
      /\ Forall2 (fun k node => dict_lookup k kvs = Some node) ids nodes.
Proof.
  induction fuel as [|fuel IH]; intros current ks acc seen' nodes'; [discriminate|].
  assert (Hstop : (forall k, current = JStr k ->
                     k = [] \/ dict_lookup k kvs = None \/ k ∈ ks) ->
    Some (Ok (JStr <$> ks, acc)) = Some (Ok (seen', nodes')) ->
    exists ids nodes,
      walked kvs ks current ids
      /\ seen' = JStr <$> (reverse ids ++ ks)
      /\ nodes' = acc ++ nodes
      /\ Forall2 (fun k node => dict_lookup k kvs = Some node) ids nodes).
  { intros Hs H. injection H as <- <-. exists [], [].
    rewrite app_nil_r. repeat split; [now constructor | constructor]. }
  cbn [walk]. unfold walk_cond.
  destruct (truthy current) eqn:Et.
  2:{ apply Hstop. intros k ->. left. now apply nonempty_false. }
  unfold py_in. destruct (hashable current); cbn [bind]; [|discriminate].
  destruct current as [| | | |k| |]; cbn [bind];
    try (apply Hstop; intros k' Hk'; discriminate Hk').
  destruct (dict_lookup k kvs) as [node|] eqn:El.
  2:{ apply Hstop. intros k' Hk'. injection Hk' as <-. right. now left. }
  unfold set_mem. cbn [hashable bind].
  destruct (existsb (fun e => py_eq e (JStr k)) (JStr <$> ks)) eqn:Es; cbn [negb].
  { apply Hstop. intros k' Hk'. injection Hk' as <-. right. right.
    now apply seen_elem. }
  apply seen_not_elem in Es.
  unfold walk_body. cbn [py_getitem]. rewrite El. cbn [bind].
  destruct node as [| | | | | |n]; try discriminate.
  cbn [py_get bind]. fold (dict_get n (lit "parent")).
  change (JStr k :: (JStr <$> ks)) with (JStr <$> (k :: ks)).
  intros H. apply IH in H as (ids & nodes & Hw & -> & -> & Hf).
  exists (k :: ids), (JObj n :: nodes). repeat split.
  - apply (walked_step kvs ks k n ids); try assumption. now apply nonempty_true.
  - rewrite reverse_cons. now rewrite <- app_assoc.
  - now rewrite <- app_assoc.
  - now constructor.
Qed.

Lemma walked_keys (kvs : list (str * json)) (seen : list str) (current : json)
    (ids : list str) :
  walked kvs seen current ids ->
  NoDup ids /\ (forall k, k ∈ ids -> (k ∉ seen) /\ (k ∈ (fst <$> kvs))).
Proof.
  induction 1 as [seen current _|seen k n rest Hk Hs Hl _ [IH1 IH2]].
  - split; [constructor|]. intros k Hk. now apply elem_of_nil in Hk.
  - split.
    + constructor; [|exact IH1]. intros Hin. apply IH2 in Hin as [Hin _].
      apply Hin. apply elem_of_cons. now left.
    + intros k' Hk'. apply elem_of_cons in Hk' as [->|Hk'].
      * split; [exact Hs|]. apply list_elem_of_fmap. exists (k, JObj n).
        split; [reflexivity | now apply dict_lookup_elem].
      * apply IH2 in Hk' as [H1 H2]. split; [|exact H2].
        intros Hin. apply H1. apply elem_of_cons. now right.
Qed.

Lemma omap_id_length {A : Type} (l : list (option A)) :
  (length (omap id l) <= length l)%nat.
Proof. induction l as [|[x|] l IH]; unfold omap in *; simpl in *; lia. Qed.

(** The function on a conversation with a dict for mapping: the path, its
    nodes, and the messages of the nodes from the root to the leaf. *)
Lemma extract_inv (fuel : nat) (c kvs : list (str * json)) (msgs : list message) :
  dict_lookup (lit "mapping") c = Some (JObj kvs) ->
  extract_messages_from_mapping nfkc fuel (JObj c) = Some (Ok msgs) ->
  exists ids nodes,
    walked kvs [] (dict_get c (lit "current_node")) ids
    /\ Forall2 (fun k node => dict_lookup k kvs = Some node) ids nodes
    /\ messages_of_nodes nfkc (reverse nodes) [] = Ok msgs.
Proof.
  intros Hm. unfold extract_messages_from_mapping. cbn [py_get]. rewrite Hm.
  fold (dict_get c (lit "current_node")).
  destruct (walk fuel (JObj kvs) (dict_get c (lit "current_node")) [] [])
    as [[[seen nodes]|]|] eqn:Ew; try discriminate.
  apply (walk_ok_walked kvs fuel _ [] []) in Ew as (ids & nodes' & Hw & _ & -> & Hf).
  intros H. injection H as H. exists ids, nodes'. now repeat split.
Qed.

Lemma content_text_clean (content : json) (t : str) :
  content_text nfkc content = Ok t -> exists blob, t = clean_text nfkc (Some blob).
Proof.
  unfold content_text.
  destruct (py_get content (lit "parts") JNull) as [ps|]; cbn [bind]; [|discriminate].
  destruct (py_iter (py_or ps (JArr []))) as [parts|]; cbn [bind]; [|discriminate].
  destruct (py_join [LF] (collect_chunks parts)) as [blob|]; cbn [bind]; [|discriminate].
  intros H. injection H as <-. now exists blob.
Qed.

Lemma node_message_shape (node : json) (msg : message) :
  node_message nfkc node = Ok (Some msg) ->
  text msg <> [] /\ (exists blob, text msg = clean_text nfkc (Some blob))
  /\ (role msg = lit "user" \/ role msg = lit "assistant").
Proof.
  unfold node_message.
  destruct (py_get node (lit "message") JNull) as [m|]; cbn [bind]; [|discriminate].
  destruct (negb (truthy m)); [discriminate|].
  destruct (resolve_author m) as [author|]; cbn [bind]; [|discriminate].
  destruct (skipped_system m author) as [[|]|]; cbn [bind]; try discriminate.
  destruct (py_get m (lit "content") JNull) as [c|]; cbn [bind]; [|discriminate].
  destruct (py_get (py_or c (JObj [])) (lit "content_type") JNull) as [ctype|];
    cbn [bind]; [|discriminate].
  destruct (negb _); [discriminate|].
  destruct (content_text nfkc (py_or c (JObj []))) as [t|] eqn:Et; cbn [bind];
    [|discriminate].
  destruct (nonempty t) eqn:En; cbn [negb]; [|discriminate].
  intros H. injection H as <-. cbn [text role]. repeat split.
  - now apply nonempty_true.
  - now apply content_text_clean in Et.
  - unfold assign_role. destruct (py_eq author _); [now right | now left].
Qed.

End ExtractorFacts.

(** X7: on a conversation whose mapping is a dict, what the extractor
    returns are the messages of the path from the current node through the
    parents: the path starts at the current node, goes from each node to
    its parent, and ends at the first parent that is missing, empty, no key
    of the mapping, or visited before; the messages are those of its nodes,
    taken from the last node of the path (the root) to the first. *)
Theorem extract_follows_parents
    (nfkc : str -> str) (fuel : nat) (c kvs : list (str * json))
    (msgs : list message) :
  dict_lookup (lit "mapping") c = Some (JObj kvs) ->
  extract_messages_from_mapping nfkc fuel (JObj c) = Some (Ok msgs) ->
  exists ids nodes oms,
    walked kvs [] (dict_get c (lit "current_node")) ids
    /\ Forall2 (fun k node => dict_lookup k kvs = Some node) ids nodes
    /\ Forall2 (fun node om => node_message nfkc node = Ok om) (reverse nodes) oms
    /\ msgs = omap id oms.
Proof.
  intros Hm He.
  destruct (extract_inv nfkc fuel c kvs msgs Hm He) as (ids & nodes & Hw & Hf & Hmsg).
  apply messages_of_nodes_omap in Hmsg as (oms & Ho & ->).
  now exists ids, nodes, oms.
Qed.

Lemma extract_follows_parents_witness :
  exists ids nodes oms,
    walked (items_of (dict_get (items_of conv_sparse) (lit "mapping"))) []
      (dict_get (items_of conv_sparse) (lit "current_node")) ids
    /\ Forall2 (fun k node =>
                  dict_lookup k (items_of (dict_get (items_of conv_sparse) (lit "mapping")))
                  = Some node) ids nodes
    /\ Forall2 (fun node om => node_message nfkc_latin node = Ok om) (reverse nodes) oms
    /\ conv_sparse_messages = omap id oms.
Proof.
  apply (extract_follows_parents nfkc_latin 6 (items_of conv_sparse)
           (items_of (dict_get (items_of conv_sparse) (lit "mapping")))
           conv_sparse_messages); reflexivity.
Defined.

(** X8: when the current node of a conversation is missing or falsy, the
    extractor returns the empty list whatever the mapping is, a value that
    is no dict included; it also returns the empty list when the mapping is
    a dict and the current node is a string that is none of its keys. *)
Theorem extract_empty_without_current
    (nfkc : str -> str) (fuel : nat) (c : list (str * json)) :
  (0 < fuel)%nat ->
  truthy (dict_get c (lit "current_node")) = false
  \/ (exists kvs k, dict_lookup (lit "mapping") c = Some (JObj kvs)
                    /\ dict_get c (lit "current_node") = JStr k
                    /\ dict_lookup k kvs = None) ->
  extract_messages_from_mapping nfkc fuel (JObj c) = Some (Ok []).
Proof.
  intros Hf H. destruct fuel as [|fuel]; [lia|].
  unfold extract_messages_from_mapping. cbn [py_get walk].
  fold (dict_get c (lit "current_node")). unfold walk_cond.
  destruct H as [H|(kvs & k & Hm & Hc & Hk)].
  - now rewrite H.
  - rewrite Hm, Hc. destruct (truthy (JStr k)); [|reflexivity].
    cbn [py_in hashable bind]. now rewrite Hk.
Qed.

Lemma extract_empty_without_current_witness :
  extract_messages_from_mapping nfkc_latin 1 (JObj conv_no_current) = Some (Ok []).
Proof.
  apply (extract_empty_without_current nfkc_latin 1 conv_no_current);
    [lia | left; reflexivity].
Defined.

(** X9: every message the extractor returns has a text that is not empty
    and is an output of [clean_text], so it neither starts nor ends with
    whitespace and has no three line feeds in a row, no carriage return, no
    tab and no no-break space; its role is [user] or [assistant]. *)
Theorem extracted_messages_normalized
    (nfkc : str -> str) (fuel : nat) (conv : json) (msgs : list message) :
  extract_messages_from_mapping nfkc fuel conv = Some (Ok msgs) ->
  Forall (fun msg =>
            text msg <> []
            /\ stripped (text msg)
            /\ ~ occurs [LF; LF; LF] (text msg)
            /\ (CR ∉ text msg) /\ (TAB ∉ text msg) /\ (NBSP ∉ text msg)
            /\ (role msg = lit "user" \/ role msg = lit "assistant")) msgs.
Proof.
  unfold extract_messages_from_mapping.
  destruct (py_get conv (lit "mapping") (JObj [])) as [mapping|]; [|discriminate].
  destruct (py_get conv (lit "current_node") JNull) as [current|]; [|discriminate].
  destruct (walk fuel mapping current [] []) as [[[seen nodes]|]|]; try discriminate.
  intros H. injection H as H.
  apply messages_of_nodes_inv in H as (new & -> & Hnew). simpl.
  eapply Forall_impl; [exact Hnew|].
  intros msg (node & _ & Hm).
  destruct (node_message_shape nfkc node msg Hm) as (Hne & [blob Hb] & Hr).
  rewrite Hb in *. cbn [clean_text] in *.
  destruct (clean_rest_shape (nfkc blob)) as (Hs & _ & Hl).
  repeat split; try assumption; try apply Hs.
  - now apply (lf_run_ok_occurs 0).
  - apply clean_rest_no_CR.
  - apply clean_rest_no_TAB.
  - apply clean_rest_no_NBSP.
Qed.

Lemma extracted_messages_normalized_witness :
  Forall (fun msg =>
            text msg <> []
            /\ stripped (text msg)
            /\ ~ occurs [LF; LF; LF] (text msg)
            /\ (CR ∉ text msg) /\ (TAB ∉ text msg) /\ (NBSP ∉ text msg)
            /\ (role msg = lit "user" \/ role msg = lit "assistant"))
    conv_sparse_messages.
Proof.
  apply (extracted_messages_normalized nfkc_latin 6 conv_sparse). reflexivity.
Defined.

(** X10: on a conversation whose mapping is a dict, the extractor returns
    at most as many messages as the mapping has items. *)
Theorem extracted_messages_count
    (nfkc : str -> str) (fuel : nat) (c kvs : list (str * json))
    (msgs : list message) :
  dict_lookup (lit "mapping") c = Some (JObj kvs) ->
  extract_messages_from_mapping nfkc fuel (JObj c) = Some (Ok msgs) ->
  (length msgs <= length kvs)%nat.
Proof.
  intros Hm He.
  destruct (extract_inv nfkc fuel c kvs msgs Hm He) as (ids & nodes & Hw & Hf & Hmsg).
  apply messages_of_nodes_omap in Hmsg as (oms & Ho & ->). simpl.
  pose proof (omap_id_length oms) as H1.
  pose proof (Forall2_length _ _ _ Ho) as H2. rewrite length_reverse in H2.
  pose proof (Forall2_length _ _ _ Hf) as H3.
  destruct (walked_keys _ _ _ _ Hw) as [Hn Hk].
  pose proof (keys_bound kvs ids Hn (fun k Hin => proj2 (Hk k Hin))) as H4.
  lia.
Qed.

Lemma extracted_messages_count_witness :
  (length conv_sparse_messages
   <= length (items_of (dict_get (items_of conv_sparse) (lit "mapping"))))%nat.
Proof.
  apply (extracted_messages_count nfkc_latin 6 (items_of conv_sparse)
           (items_of (dict_get (items_of conv_sparse) (lit "mapping")))
           conv_sparse_messages); reflexivity.
Defined.

(** X11: on a conversation whose mapping is a dict, every message the
    extractor returns is the message of a node of the mapping whose content
    type is [text] or [multimodal_text], and whose author, when it is
    [system], has a truthy [is_user_system_message] in the metadata. *)
Theorem extracted_messages_filtered
    (nfkc : str -> str) (fuel : nat) (c kvs : list (str * json))
    (msgs : list message) :
  dict_lookup (lit "mapping") c = Some (JObj kvs) ->
  extract_messages_from_mapping nfkc fuel (JObj c) = Some (Ok msgs) ->
  Forall (fun msg => exists k node m author content ctype,
            dict_lookup k kvs = Some node
            /\ node_message nfkc node = Ok (Some msg)
            /\ py_get node (lit "message") JNull = Ok m
            /\ resolve_author m = Ok author
            /\ (author = JStr (lit "system") ->
                exists md flag,
                  py_get m (lit "metadata") JNull = Ok md
                  /\ py_get (py_or md (JObj [])) (lit "is_user_system_message") JNull
                     = Ok flag
                  /\ truthy flag = true)
            /\ py_get m (lit "content") JNull = Ok content
            /\ py_get (py_or content (JObj [])) (lit "content_type") JNull = Ok ctype
            /\ (ctype = JStr (lit "text") \/ ctype = JStr (lit "multimodal_text")))
         msgs.
Proof.
  intros Hm He.
  destruct (extract_inv nfkc fuel c kvs msgs Hm He) as (ids & nodes & _ & Hf & Hmsg).
  apply messages_of_nodes_inv in Hmsg as (new & -> & Hnew). simpl.
  eapply Forall_impl; [exact Hnew|].
  intros msg (node & Hin & Hnm).
  apply (proj1 (elem_of_reverse _ _)) in Hin.
  destruct (proj1 (list_elem_of_lookup _ _) Hin) as [i Hi].
  destruct (Forall2_lookup_r _ _ _ _ _ Hf Hi) as (k & _ & Hk).
  pose proof Hnm as Hnm'. unfold node_message in Hnm'.
  destruct (py_get node (lit "message") JNull) as [m|] eqn:E1; cbn [bind] in Hnm';
    [|discriminate].
  destruct (negb (truthy m)); [discriminate|].
  destruct (resolve_author m) as [author|] eqn:E2; cbn [bind] in Hnm'; [|discriminate].
  destruct (skipped_system m author) as [[|]|] eqn:Es; cbn [bind] in Hnm';
    try discriminate.
  destruct (py_get m (lit "content") JNull) as [content|] eqn:E3; cbn [bind] in Hnm';
    [|discriminate].
  destruct (py_get (py_or content (JObj [])) (lit "content_type") JNull)
    as [ctype|] eqn:E4; cbn [bind] in Hnm'; [|discriminate].
  destruct (py_eq ctype (JStr (lit "text")) || py_eq ctype (JStr (lit "multimodal_text")))
    eqn:Ec; cbn [negb] in Hnm'; [|discriminate].
  exists k, node, m, author, content, ctype. repeat split; try assumption; try reflexivity.
  - intros ->. unfold skipped_system in Es.
    replace (py_eq (JStr (lit "system")) (JStr (lit "system"))) with true in Es
      by (symmetry; now apply py_eq_str).
    destruct (py_get m (lit "metadata") JNull) as [md|]; cbn [bind] in Es;
      [|discriminate].
    destruct (py_get (py_or md (JObj [])) (lit "is_user_system_message") JNull)
      as [flag|] eqn:Efl; cbn [bind] in Es; [|discriminate].
    exists md, flag. injection Es as Es. apply negb_false_iff in Es.
    now repeat split.
  - apply orb_true_iff in Ec as [Ec|Ec]; apply py_eq_str in Ec; [now left | now right].
Qed.

Lemma extracted_messages_filtered_witness :
  Forall (fun msg => exists k node m author content ctype,
            dict_lookup k (items_of (dict_get (items_of conv_roles) (lit "mapping")))
            = Some node
            /\ node_message nfkc_latin node = Ok (Some msg)
            /\ py_get node (lit "message") JNull = Ok m
            /\ resolve_author m = Ok author
            /\ (author = JStr (lit "system") ->
                exists md flag,
                  py_get m (lit "metadata") JNull = Ok md
                  /\ py_get (py_or md (JObj [])) (lit "is_user_system_message") JNull
                     = Ok flag
                  /\ truthy flag = true)
            /\ py_get m (lit "content") JNull = Ok content
            /\ py_get (py_or content (JObj [])) (lit "content_type") JNull = Ok ctype
            /\ (ctype = JStr (lit "text") \/ ctype = JStr (lit "multimodal_text")))
         conv_roles_messages.
Proof.
  apply (extracted_messages_filtered nfkc_latin 5 (items_of conv_roles)
           (items_of (dict_get (items_of conv_roles) (lit "mapping")))
           conv_roles_messages); reflexivity.
Defined.

(** ** The pair builder: further results *)

Section PairsFacts.

Lemma is_user_false (m : message) : role m <> lit "user" -> is_user m = false.
Proof.
  intros H. unfold is_user. destruct (str_eqb (role m) (lit "user")) eqn:E;
    [|reflexivity]. now apply str_eqb_eq in E.
Qed.

Lemma pairs_step_non_user (pairs : list pair) (buffer_user : list str) (m : message) :
  is_user m = false ->
  pairs_step (pairs, buffer_user) m =
  (if nonempty buffer_user && nonempty (text m) then
     if nonempty (join [LF; LF] buffer_user) && nonempty (text m)
     then pairs ++ [{| prompt := join [LF; LF] buffer_user; completion := text m |}]
     else pairs
   else pairs, []).
Proof. unfold is_user, pairs_step. now intros ->. Qed.

Lemma pairs_step_user (pairs : list pair) (buffer_user : list str) (m : message) :
  is_user m = true ->
  pairs_step (pairs, buffer_user) m =
  (pairs, if nonempty (text m) then buffer_user ++ [text m] else buffer_user).
Proof. unfold is_user, pairs_step. intros ->. now destruct (nonempty (text m)). Qed.

(** User messages only fill the buffer. *)
Lemma fold_users (us : list message) :
  Forall (fun m => role m = lit "user") us ->
  forall pairs buffer_user,
    fold_left pairs_step us (pairs, buffer_user) = (pairs, buffer_user ++ texts_of us).
Proof.
  induction 1 as [|m us Hm _ IH]; intros pairs buffer_user; cbn [fold_left].
  - unfold texts_of. simpl. now rewrite app_nil_r.
  - rewrite pairs_step_user by (unfold is_user; rewrite Hm; apply str_eqb_refl).
    rewrite IH. unfold texts_of. cbn [fmap list_fmap List.filter].
    destruct (nonempty (text m)); [now rewrite <- app_assoc | reflexivity].
Qed.

Lemma texts_of_nonempty (us : list message) : Forall (fun t => t <> []) (texts_of us).
Proof.
  unfold texts_of. induction us as [|m us IH]; simpl; [constructor|].
  destruct (nonempty (text m)) eqn:E; [|exact IH].
  constructor; [now apply nonempty_true | exact IH].
Qed.

(** The counts behind the bound on the number of pairs. *)
Lemma fold_pairs_count (ms : list message) :
  forall pairs buffer_user,
    let st := fold_left pairs_step ms (pairs, buffer_user) in
    (length (fst st)
     <= length pairs
        + length (List.filter (fun m => negb (is_user m) && nonempty (text m)) ms))%nat
    /\ (length (fst st) + (if nonempty (snd st) then 1 else 0)
        <= length pairs + (if nonempty buffer_user then 1 else 0)
           + length (List.filter (fun m => is_user m && nonempty (text m)) ms))%nat.
Proof.
  induction ms as [|m ms IH]; intros pairs buffer_user; cbn [fold_left].
  - simpl. lia.
  - destruct (is_user m) eqn:Eu.
    + rewrite (pairs_step_user _ _ _ Eu).
      specialize (IH pairs (if nonempty (text m) then buffer_user ++ [text m]
                            else buffer_user)).
      cbn zeta in *. cbn [List.filter]. rewrite Eu. cbn [negb andb].
      destruct (nonempty (text m)); cbn [length] in *.
      * assert (nonempty (buffer_user ++ [text m]) = true) as E
          by now destruct buffer_user.
        rewrite E in IH. destruct (nonempty buffer_user); lia.
      * lia.
    + rewrite (pairs_step_non_user _ _ _ Eu). cbn [List.filter]. rewrite Eu.
      cbn [negb andb].
      destruct (nonempty buffer_user) eqn:Eb, (nonempty (text m)) eqn:Et,
        (nonempty (join [LF; LF] buffer_user)); cbn [andb length];
        match goal with
        | |- context [fold_left pairs_step ms (?p, [])] => specialize (IH p [])
        end;
        cbn zeta in *; rewrite ?length_app in IH; simpl in IH; lia.
Qed.

Lemma fold_pairs_completions (ms : list message) :
  forall buffer_user,
    (completion <$> fst (fold_left pairs_step ms ([], buffer_user)))
    `sublist_of` (text <$> List.filter (fun m => negb (is_user m)) ms).
Proof.
  induction ms as [|m ms IH]; intros buffer_user; cbn [fold_left].
  - constructor.
  - destruct (is_user m) eqn:Eu; cbn [List.filter]; rewrite Eu; cbn [negb].
    + rewrite (pairs_step_user _ _ _ Eu). apply IH.
    + rewrite (pairs_step_non_user _ _ _ Eu), fold_pairs_prefix. cbn [fst].
      rewrite fmap_app. cbn [fmap list_fmap].
      destruct (nonempty buffer_user && nonempty (text m)).
      * destruct (nonempty (join [LF; LF] buffer_user) && nonempty (text m)).
        -- simpl. apply sublist_skip. apply IH.
        -- simpl. apply sublist_cons. apply IH.
      * simpl. apply sublist_cons. apply IH.
Qed.

Lemma join_stripped (sep : str) (l : list str) :
  l <> [] -> Forall (fun t => stripped t /\ t <> []) l -> stripped (join sep l).
Proof.
  intros Hne H. induction H as [|t l [[Hh Hl] Ht] Hrest IH]; [easy|].
  destruct l as [|t' l]; [now split|].
  assert (IH' : stripped (join sep (t' :: l))) by now apply IH.
  change (join sep (t :: t' :: l)) with (t ++ sep ++ join sep (t' :: l)).
  assert (Hj : join sep (t' :: l) <> []).
  { apply join_nonempty; [easy|]. eapply Forall_impl; [exact Hrest|]. now intros x [_ Hx]. }
  split; intros c Hc.
  - apply Hh. destruct t; [easy | exact Hc].
  - apply IH'. rewrite app_assoc in Hc.
    rewrite last_app in Hc. destruct (last (join sep (t' :: l))) eqn:E; [exact Hc|].
    now apply last_None in E.
Qed.

Lemma fold_pairs_stripped (ms : list message) :
  Forall (fun m => stripped (text m)) ms ->
  forall pairs buffer_user,
    Forall (fun p => stripped (prompt p) /\ stripped (completion p)) pairs ->
    Forall (fun t => stripped t /\ t <> []) buffer_user ->
    Forall (fun p => stripped (prompt p) /\ stripped (completion p))
      (fst (fold_left pairs_step ms (pairs, buffer_user))).
Proof.
  induction 1 as [|m ms Hm _ IH]; intros pairs buffer_user Hp Hb; cbn [fold_left];
    [exact Hp|].
  destruct (is_user m) eqn:Eu.
  - rewrite (pairs_step_user _ _ _ Eu). apply IH; [exact Hp|].
    destruct (nonempty (text m)) eqn:Et; [|exact Hb].
    apply Forall_app. split; [exact Hb|]. constructor; [|constructor].
    split; [exact Hm | now apply nonempty_true].
  - rewrite (pairs_step_non_user _ _ _ Eu). apply IH; [|constructor].
    destruct (nonempty buffer_user && nonempty (text m)) eqn:E1; [|exact Hp].
    destruct (nonempty (join [LF; LF] buffer_user) && nonempty (text m));
      [|exact Hp].
    apply andb_true_iff in E1 as [E1 _]. apply nonempty_true in E1.
    apply Forall_app. split; [exact Hp|]. constructor; [|constructor].
    split; cbn [prompt completion]; [now apply join_stripped | exact Hm].
Qed.

End PairsFacts.

(** X12: user messages at the end of the sequence, with no other message
    after them, add no pair. *)
Theorem trailing_user_messages_discarded (messages us : list message) :
  Forall (fun m => role m = lit "user") us ->
  messages_to_pairs (messages ++ us) = messages_to_pairs messages.
Proof.
  intros Hu. unfold messages_to_pairs. rewrite fold_left_app.
  destruct (fold_left pairs_step messages ([], [])) as [pairs buffer_user].
  now rewrite (fold_users us Hu).
Qed.

Lemma trailing_user_messages_discarded_witness :
  messages_to_pairs (fst burst ++ [snd burst] ++ fst burst)
  = messages_to_pairs (fst burst ++ [snd burst]).
Proof.
  rewrite app_assoc.
  apply (trailing_user_messages_discarded (fst burst ++ [snd burst]) (fst burst)).
  now repeat constructor.
Defined.

(** X13: after a sequence that leaves no user text pending, user messages
    in a row followed by a message of another role with a text make one
    pair: its prompt is the texts of the user messages that are not empty,
    joined by a blank line, its completion is the text of that message;
    the messages after it are handled on their own. *)
Theorem user_burst_makes_one_pair
    (before us : list message) (a : message) (after : list message) :
  pending before = [] ->
  Forall (fun m => role m = lit "user") us ->
  role a <> lit "user" -> text a <> [] -> texts_of us <> [] ->
  messages_to_pairs (before ++ us ++ a :: after) =
  messages_to_pairs before
  ++ [{| prompt := join [LF; LF] (texts_of us); completion := text a |}]
  ++ messages_to_pairs after.
Proof.
  intros Hp Hu Ha Ht Hne. unfold messages_to_pairs, pending in *.
  rewrite !fold_left_app.
  destruct (fold_left pairs_step before ([], [])) as [pairs buffer_user].
  cbn [snd fst] in *. subst buffer_user.
  rewrite (fold_users us Hu). cbn [app fold_left].
  rewrite (pairs_step_non_user _ _ _ (is_user_false a Ha)).
  assert (E1 : nonempty (texts_of us) = true) by now apply nonempty_true.
  assert (E2 : nonempty (text a) = true) by now apply nonempty_true.
  assert (E3 : nonempty (join [LF; LF] (texts_of us)) = true).
  { apply nonempty_true, join_nonempty; [exact Hne | apply texts_of_nonempty]. }
  rewrite E1, E2, E3. cbn [andb]. rewrite fold_pairs_prefix. cbn [fst].
  now rewrite <- app_assoc.
Qed.

Lemma user_burst_makes_one_pair_witness :
  messages_to_pairs (fst burst ++ [snd burst])
  = [ {| prompt := lit "Part 1" ++ [LF; LF] ++ lit "Part 2"; completion := lit "OK" |} ].
Proof.
  apply (user_burst_makes_one_pair [] (fst burst) (snd burst) []);
    [reflexivity | now repeat constructor | discriminate | discriminate | discriminate].
Defined.

(** X14: there are at most as many pairs as messages of a role other than
    [user] with a text, and at most as many as user messages with a text. *)
Theorem pairs_count (messages : list message) :
  (length (messages_to_pairs messages)
   <= length (List.filter (fun m => negb (is_user m) && nonempty (text m)) messages))%nat
  /\ (length (messages_to_pairs messages)
      <= length (List.filter (fun m => is_user m && nonempty (text m)) messages))%nat.
Proof.
  unfold messages_to_pairs.
  destruct (fold_pairs_count messages [] []) as [H1 H2]. cbn zeta in *.
  simpl in H1, H2. split; [exact H1|].
  destruct (nonempty (snd (fold_left pairs_step messages ([], [])))); lia.
Qed.

(** X15: the completions of the pairs are texts of the messages of a role
    other than [user], in the order of the messages. *)
Theorem completions_in_order (messages : list message) :
  (completion <$> messages_to_pairs messages)
  `sublist_of` (text <$> List.filter (fun m => negb (is_user m)) messages).
Proof. apply fold_pairs_completions. Qed.

(** X16: of two messages in a row of a role other than [user], the second
    adds no pair and changes nothing for the messages after it. *)
Theorem second_answer_ignored
    (before : list message) (a1 a2 : message) (after : list message) :
  role a1 <> lit "user" -> role a2 <> lit "user" ->
  messages_to_pairs (before ++ a1 :: a2 :: after)
  = messages_to_pairs (before ++ a1 :: after).
Proof.
  intros H1 H2. unfold messages_to_pairs. rewrite !fold_left_app.
  destruct (fold_left pairs_step before ([], [])) as [pairs buffer_user].
  cbn [fold_left].
  rewrite (pairs_step_non_user _ _ _ (is_user_false a1 H1)).
  now rewrite (pairs_step_non_user _ _ _ (is_user_false a2 H2)).
Qed.

Lemma second_answer_ignored_witness :
  messages_to_pairs (fst burst ++ snd burst :: snd burst :: fst burst)
  = messages_to_pairs (fst burst ++ snd burst :: fst burst).
Proof.
  apply (second_answer_ignored (fst burst) (snd burst) (snd burst) (fst burst));
    discriminate.
Defined.

(** X17: when no text of the messages starts or ends with whitespace, no
    prompt and no completion of the pairs does. *)
Theorem pairs_stripped (messages : list message) :
  Forall (fun m => stripped (text m)) messages ->
  Forall (fun p => stripped (prompt p) /\ stripped (completion p))
    (messages_to_pairs messages).
Proof.
  intros H. unfold messages_to_pairs.
  apply (fold_pairs_stripped messages H [] []); constructor.
Qed.

Lemma pairs_stripped_witness :
  Forall (fun p => stripped (prompt p) /\ stripped (completion p))
    (messages_to_pairs conv_sparse_messages).
Proof.
  apply (pairs_stripped conv_sparse_messages).
  repeat constructor; intros c H; vm_compute in H; injection H as <-; reflexivity.
Defined.

(** ** The filename sanitizer: further results *)

Section SanitizerFacts.

Variable isalnum : N -> bool.

Lemma underscore_allowed : allowed isalnum 95 = true.
Proof. unfold allowed, is_word. simpl. now rewrite orb_true_r. Qed.

Lemma sub_invalid_runs_allowed (in_run : bool) (s : str) :
  Forall (fun c => allowed isalnum c = true) (sub_invalid_runs isalnum in_run s).
Proof.
  revert in_run. induction s as [|c s IH]; intros in_run; simpl; [constructor|].
  destruct (allowed isalnum c) eqn:E.
  - constructor; [exact E | apply IH].
  - destruct in_run; [apply IH|]. constructor; [apply underscore_allowed | apply IH].
Qed.

Lemma sub_invalid_runs_id (in_run : bool) (s : str) :
  Forall (fun c => allowed isalnum c = true) s ->
  sub_invalid_runs isalnum in_run s = s.
Proof.
  intros H. revert in_run. induction H as [|c s Hc _ IH]; intros in_run; simpl;
    [reflexivity|]. rewrite Hc. now rewrite IH.
Qed.

Lemma slice_to_Forall (P : N -> Prop) (n : Z) (s : str) :
  Forall P s -> Forall P (slice_to n s).
Proof. intros H. unfold slice_to. destruct (0 <=? n)%Z; now apply Forall_take. Qed.

Lemma slice_to_all (n : Z) (s : str) :
  (Z.of_nat (length s) <= n)%Z -> slice_to n s = s.
Proof.
  intros H. unfold slice_to.
  assert (E : (0 <=? n)%Z = true) by (apply Z.leb_le; lia).
  rewrite E. apply take_ge. lia.
Qed.

(** A title that needs nothing is returned as it is. *)
Lemma sanitize_filename_fixed (title : str) (max_length : Z) :
  Forall (fun c => allowed isalnum c = true) title ->
  stripped title -> title <> [] ->
  (Z.of_nat (length title) <= max_length)%Z ->
  sanitize_filename isalnum title max_length = title.
Proof.
  intros Ha Hs Hne Hl. unfold sanitize_filename.
  rewrite (sub_invalid_runs_id false title Ha), (slice_to_all _ _ Hl), (strip_id _ Hs).
  now destruct title.
Qed.

(** What [sanitize_filename] returns when it is not the fallback. *)
Lemma sanitize_filename_cases (title : str) (max_length : Z) :
  sanitize_filename isalnum title max_length = lit "conversation"
  \/ (sanitize_filename isalnum title max_length
      = strip (slice_to max_length (sub_invalid_runs isalnum false title))
      /\ sanitize_filename isalnum title max_length <> []).
Proof.
  unfold sanitize_filename.
  destruct (strip (slice_to max_length (sub_invalid_runs isalnum false title)));
    [now left | now right].
Qed.

Lemma sub_invalid_runs_app (in_run : bool) (a rest : str) :
  a <> [] -> (forall c, last a = Some c -> allowed isalnum c = true) ->
  sub_invalid_runs isalnum in_run (a ++ rest)
  = sub_invalid_runs isalnum in_run a ++ sub_invalid_runs isalnum false rest.
Proof.
  intros Hne Hl. revert in_run. induction a as [|c a IH]; intros in_run; [easy|].
  destruct a as [|d a].
  - simpl. now rewrite (Hl c eq_refl).
  - assert (IH' : forall b, sub_invalid_runs isalnum b ((d :: a) ++ rest)
                  = sub_invalid_runs isalnum b (d :: a)
                    ++ sub_invalid_runs isalnum false rest).
    { apply IH; [easy|]. intros x Hx. apply Hl. now rewrite last_cons_cons. }
    remember (d :: a) as a' eqn:Ea. clear Ea IH Hl. cbn [app sub_invalid_runs].
    destruct (allowed isalnum c); [|destruct in_run]; now rewrite ?IH'.
Qed.

Lemma sub_invalid_runs_bad (bad b : str) :
  Forall (fun c => allowed isalnum c = false) bad ->
  (forall c, head b = Some c -> allowed isalnum c = true) ->
  sub_invalid_runs isalnum true (bad ++ b) = sub_invalid_runs isalnum false b.
Proof.
  intros Hbad Hb. induction Hbad as [|c bad Hc _ IH]; simpl.
  - destruct b as [|c b]; [reflexivity|]. simpl. now rewrite (Hb c eq_refl).
  - now rewrite Hc.
Qed.

End SanitizerFacts.

(** X18: whatever the title and the length, the result of
    [sanitize_filename] neither starts nor ends with whitespace, and it is
    the literal [conversation] or consists of allowed characters only: word
    characters, hyphens, periods and spaces. *)
Theorem sanitize_filename_safe (isalnum : N -> bool) (title : str) (max_length : Z) :
  stripped (sanitize_filename isalnum title max_length)
  /\ (sanitize_filename isalnum title max_length = lit "conversation"
      \/ Forall (fun c => allowed isalnum c = true)
           (sanitize_filename isalnum title max_length)).
Proof.
  destruct (sanitize_filename_cases isalnum title max_length) as [E|[E _]]; rewrite E.
  - split; [|now left].
    split; intros c H; vm_compute in H; injection H as <-; reflexivity.
  - split; [apply strip_stripped|]. right.
    apply strip_Forall, slice_to_Forall, sub_invalid_runs_allowed.
Qed.

(** X19: a title that is not empty, consists of allowed characters only,
    neither starts nor ends with whitespace and is not longer than
    [max_length] is returned unchanged. *)
Theorem sanitize_filename_keeps_safe_title
    (isalnum : N -> bool) (title : str) (max_length : Z) :
  Forall (fun c => allowed isalnum c = true) title ->
  stripped title -> title <> [] ->
  (Z.of_nat (length title) <= max_length)%Z ->
  sanitize_filename isalnum title max_length = title.
Proof. apply sanitize_filename_fixed. Qed.

Lemma sanitize_filename_keeps_safe_title_witness :
  sanitize_filename isalnum_ascii (lit "notes v1.2 - final_draft") 24
  = lit "notes v1.2 - final_draft".
Proof.
  apply (sanitize_filename_keeps_safe_title isalnum_ascii
           (lit "notes v1.2 - final_draft") 24).
  - vm_compute. now repeat constructor.
  - split; intros c H; vm_compute in H; injection H as <-; reflexivity.
  - discriminate.
  - vm_compute. discriminate.
Defined.

(** X20: when [max_length] is at least 12 and the letters of the literal
    [conversation] are alphanumeric, sanitizing a result again returns it
    unchanged. *)
Theorem sanitize_filename_idempotent
    (isalnum : N -> bool) (title : str) (max_length : Z) :
  (12 <= max_length)%Z ->
  Forall (fun c => isalnum c = true) (lit "conversation") ->
  sanitize_filename isalnum (sanitize_filename isalnum title max_length) max_length
  = sanitize_filename isalnum title max_length.
Proof.
  intros Hn Hal.
  destruct (sanitize_filename_cases isalnum title max_length) as [E|[E Hne]].
  - rewrite E. apply sanitize_filename_fixed.
    + eapply Forall_impl; [exact Hal|]. intros c Hc. unfold allowed, is_word.
      now rewrite Hc.
    + split; intros c H; vm_compute in H; injection H as <-; reflexivity.
    + discriminate.
    + vm_compute length. lia.
  - apply sanitize_filename_fixed; [| |exact Hne|].
    + rewrite E. apply strip_Forall, slice_to_Forall, sub_invalid_runs_allowed.
    + rewrite E. apply strip_stripped.
    + rewrite E.
      pose proof (strip_length (slice_to max_length
                   (sub_invalid_runs isalnum false title))).
      pose proof (slice_to_length max_length
                   (sub_invalid_runs isalnum false title)). lia.
Qed.

Lemma sanitize_filename_idempotent_witness :
  sanitize_filename isalnum_ascii
    (sanitize_filename isalnum_ascii (lit "My/Chat: Test?") 12) 12
  = sanitize_filename isalnum_ascii (lit "My/Chat: Test?") 12.
Proof.
  apply (sanitize_filename_idempotent isalnum_ascii (lit "My/Chat: Test?") 12);
    [lia | vm_compute; now repeat constructor].
Defined.

(** X21: in the substitution of line 188, a run of characters that are not
    allowed, between a text that does not end in such a character and a
    text that does not start with one, becomes one underscore; the texts on
    both sides are handled on their own. *)
Theorem invalid_run_becomes_one_underscore
    (isalnum : N -> bool) (a bad b : str) :
  bad <> [] -> Forall (fun c => allowed isalnum c = false) bad ->
  (forall c, last a = Some c -> allowed isalnum c = true) ->
  (forall c, head b = Some c -> allowed isalnum c = true) ->
  sub_invalid_runs isalnum false (a ++ bad ++ b)
  = sub_invalid_runs isalnum false a ++ [95] ++ sub_invalid_runs isalnum false b.
Proof.
  intros Hne Hbad Ha Hb.
  assert (E : sub_invalid_runs isalnum false (bad ++ b)
              = 95 :: sub_invalid_runs isalnum false b).
  { destruct Hbad as [|c bad Hc Hbad]; [easy|]. cbn [app sub_invalid_runs].
    rewrite Hc. f_equal. now apply sub_invalid_runs_bad. }
  destruct a as [|x a]; [exact E|].
  rewrite sub_invalid_runs_app; [|easy | exact Ha]. now rewrite E.
Qed.

Lemma invalid_run_becomes_one_underscore_witness :
  sub_invalid_runs isalnum_ascii false (lit "My" ++ lit "/:?*" ++ lit "Chat")
  = sub_invalid_runs isalnum_ascii false (lit "My") ++ [95]
    ++ sub_invalid_runs isalnum_ascii false (lit "Chat").
Proof.
  apply (invalid_run_becomes_one_underscore isalnum_ascii
           (lit "My") (lit "/:?*") (lit "Chat")).
  - discriminate.
  - vm_compute. now repeat constructor.
  - intros c H; vm_compute in H; injection H as <-; reflexivity.
  - intros c H; vm_compute in H; injection H as <-; reflexivity.
Defined.

(** ** The orchestration: results *)

Section MainFacts.

Variable nfkc : str -> str.
Variable isalnum : N -> bool.

Lemma main_step_kept (fuel : nat) (st st' : run) (conv : json) :
  main_step nfkc isalnum fuel st conv = Some (Ok st') ->
  match kept_of nfkc fuel conv with
  | Some c => st' = keep isalnum st (convo_title c) (convo_messages c)
  | None => st' = {| all_convos := all_convos st; all_pairs := all_pairs st;
                     skipped := S (skipped st); written := written st |}
  end.
Proof.
  unfold main_step, kept_of.
  destruct conv as [| | | | | |c]; try discriminate.
  cbn [py_get items_of]. fold (dict_get c (lit "title")).
  destruct (extract_messages_from_mapping nfkc fuel (JObj c)) as [[msgs|]|];
    try discriminate.
  destruct msgs as [|m ms]; cbn [nonempty negb].
  - intros H. now injection H as <-.
  - destruct (py_or (dict_get c (lit "title")) (JStr (lit "Conversation")));
      try discriminate.
    intros H. now injection H as <-.
Qed.

(** The text of a markdown file, spelled out: the heading line, and for
    each message an empty line, the line of the label in bold, an empty
    line, the text and a line feed. *)
Lemma markdown_explicit (title : str) (messages : list message) :
  markdown title messages
  = lit "# " ++ title ++ [LF]
    ++ flat_map (fun m =>
         [LF] ++ lit "**"
         ++ (if str_eqb (role m) (lit "user")
             then [0xF0; 0x178; 0x2018; 0xA4] ++ lit " You"
             else [0xF0; 0x178; 0xA4; 0x2013] ++ lit " Assistant")
         ++ lit "**:" ++ [LF; LF] ++ text m ++ [LF]) messages.
Proof.
  unfold markdown. rewrite join_blob. unfold blob_of.
  rewrite <- !app_assoc. do 3 f_equal.
  induction messages as [|m messages IH]; [reflexivity|].
  cbn [List.map flat_map]. rewrite IH. reflexivity.
Qed.

(** The state the loop ends in, from the state it starts in. *)
Lemma main_loop_inv (fuel : nat) (convs : list json) :
  forall st r,
    main_loop nfkc isalnum fuel convs st = Some (Ok r) ->
    all_convos r = all_convos st ++ omap (kept_of nfkc fuel) convs
    /\ all_pairs r
       = all_pairs st ++ flat_map pairs_of (omap (kept_of nfkc fuel) convs)
    /\ written r
       = written st ++ List.map (file_of isalnum) (omap (kept_of nfkc fuel) convs)
    /\ (skipped r + length (omap (kept_of nfkc fuel) convs)
        = skipped st + length convs)%nat.
Proof.
  induction convs as [|conv convs IH]; intros st r; cbn [main_loop].
  - intros H. injection H as <-. simpl. rewrite !app_nil_r. repeat split; lia.
  - destruct (main_step nfkc isalnum fuel st conv) as [[st'|]|] eqn:E;
      try discriminate.
    apply main_step_kept in E. intros H. apply IH in H as (H1 & H2 & H3 & H4).
    change (omap (kept_of nfkc fuel) (conv :: convs))
      with (match kept_of nfkc fuel conv with
            | Some c => c :: omap (kept_of nfkc fuel) convs
            | None => omap (kept_of nfkc fuel) convs
            end).
    destruct (kept_of nfkc fuel conv) as [[title msgs]|]; subst st';
      cbn [keep all_convos all_pairs written skipped convo_title convo_messages] in *.
    + rewrite H1, H2, H3. cbn [flat_map List.map length].
      rewrite <- !app_assoc. repeat split. simpl in *. lia.
    + rewrite H1, H2, H3. repeat split. simpl in *. lia.
Qed.

Lemma main_core_completed (fuel : nat) (data : json) (r : run) :
  main_core nfkc isalnum fuel data = Some (Completed r) ->
  exists conversations convs,
    select_conversations data = Some conversations
    /\ py_iter conversations = Ok convs
    /\ main_loop nfkc isalnum fuel convs empty_run = Some (Ok r).
Proof.
  unfold main_core.
  destruct (select_conversations data) as [conversations|]; [|discriminate].
  destruct (py_iter conversations) as [convs|] eqn:Ei; [|discriminate].
  destruct (main_loop nfkc isalnum fuel convs empty_run) as [[r'|]|] eqn:E;
    try discriminate.
  intros H. injection H as <-. now exists conversations, convs.
Qed.

Lemma kept_of_messages (fuel : nat) (conv : json) (c : convo) :
  kept_of nfkc fuel conv = Some c ->
  extract_messages_from_mapping nfkc fuel conv = Some (Ok (convo_messages c))
  /\ convo_messages c <> [].
Proof.
  unfold kept_of.
  destruct (extract_messages_from_mapping nfkc fuel conv) as [[[|m ms]|]|];
    try discriminate.
  destruct (py_or _ _); try discriminate.
  intros H. injection H as <-. now split.
Qed.

Lemma extract_texts_stripped (fuel : nat) (conv : json) (msgs : list message) :
  extract_messages_from_mapping nfkc fuel conv = Some (Ok msgs) ->
  Forall (fun m => stripped (text m)) msgs.
Proof.
  unfold extract_messages_from_mapping.
  destruct (py_get conv (lit "mapping") (JObj [])) as [mapping|]; [|discriminate].
  destruct (py_get conv (lit "current_node") JNull) as [current|]; [|discriminate].
  destruct (walk fuel mapping current [] []) as [[[seen nodes]|]|]; try discriminate.
  intros H. injection H as H.
  apply messages_of_nodes_inv in H as (new & -> & Hnew). simpl.
  eapply Forall_impl; [exact Hnew|].
  intros msg (node & _ & Hm).
  destruct (node_message_shape nfkc node msg Hm) as (_ & [blob ->] & _).
  cbn [clean_text]. apply clean_rest_shape.
Qed.

(** A conversation of the expected types gives messages, as in the result
    on typed fields above. *)
Lemma extract_ok_conv (fuel : nat) (conv : json) :
  conv_ok conv = true -> (mapping_size conv < fuel)%nat ->
  exists msgs, extract_messages_from_mapping nfkc fuel conv = Some (Ok msgs).
Proof.
  destruct conv as [| | | | | |c]; try discriminate.
  unfold conv_ok, mapping_size, extract_messages_from_mapping.
  cbn [py_get]. fold (dict_get c (lit "current_node")).
  intros H Hf. apply andb_true_iff in H as [Hm Hc].
  destruct (dict_lookup (lit "mapping") c) as [mapping|].
  - destruct mapping as [| | | | | |mapping]; try discriminate.
    now apply extract_ok.
  - apply extract_ok; [reflexivity | exact Hc | simpl; lia].
Qed.

Lemma main_step_ok (fuel : nat) (st : run) (conv : json) :
  conv_ok conv = true -> title_ok conv = true -> (mapping_size conv < fuel)%nat ->
  exists st', main_step nfkc isalnum fuel st conv = Some (Ok st').
Proof.
  intros Hc Ht Hf. destruct (extract_ok_conv fuel conv Hc Hf) as [msgs He].
  unfold main_step. rewrite He.
  destruct conv as [| | | | | |c]; try discriminate.
  cbn [py_get]. fold (dict_get c (lit "title")).
  destruct (negb (nonempty msgs)); [now eexists|].
  unfold title_ok in Ht. cbn [items_of] in Ht. unfold py_or.
  destruct (dict_get c (lit "title")) as [| | | |t| |]; cbv beta iota in Ht;
    try (apply negb_true_iff in Ht; rewrite Ht; now eexists).
  destruct (truthy (JStr t)); now eexists.
Qed.

Lemma main_loop_ok (fuel : nat) (convs : list json) :
  Forall (fun conv => conv_ok conv = true /\ title_ok conv = true
                      /\ (mapping_size conv < fuel)%nat) convs ->
  forall st, exists r, main_loop nfkc isalnum fuel convs st = Some (Ok r).
Proof.
  induction 1 as [|conv convs (Hc & Ht & Hf) _ IH]; intros st; cbn [main_loop].
  - now eexists.
  - destruct (main_step_ok fuel st conv Hc Ht Hf) as [st' ->]. apply IH.
Qed.

Lemma main_loop_app (fuel : nat) (before rest : list json) (st st' : run) :
  main_loop nfkc isalnum fuel before st = Some (Ok st') ->
  main_loop nfkc isalnum fuel (before ++ rest) st
  = main_loop nfkc isalnum fuel rest st'.
Proof.
  revert st. induction before as [|conv before IH]; intros st; cbn [app main_loop].
  - intros H. now injection H as <-.
  - destruct (main_step nfkc isalnum fuel st conv) as [[st1|]|]; try discriminate.
    apply IH.
Qed.

End MainFacts.

(** X22: when [main] reaches the end of its loop, [all_convos] holds, in
    the order of the input, the conversations for which the extractor
    returned messages, each with its title (the string [Conversation] for a
    missing or falsy one) and these messages; every other conversation was
    counted as skipped, so both counts add up to the number of
    conversations. *)
Theorem main_keeps_conversations_with_messages
    (nfkc : str -> str) (isalnum : N -> bool) (fuel : nat) (data : json) (r : run) :
  main_core nfkc isalnum fuel data = Some (Completed r) ->
  exists conversations convs,
    select_conversations data = Some conversations
    /\ py_iter conversations = Ok convs
    /\ all_convos r = omap (kept_of nfkc fuel) convs
    /\ Forall (fun c => convo_messages c <> []) (all_convos r)
    /\ (length (all_convos r) + skipped r = length convs)%nat.
Proof.
  intros H.
  destruct (main_core_completed nfkc isalnum fuel data r H)
    as (conversations & convs & Hs & Hi & Hl).
  apply main_loop_inv in Hl as (H1 & _ & _ & H4). simpl in H1, H4.
  exists conversations, convs. repeat split; try assumption.
  - rewrite H1. apply Forall_forall. intros c Hc.
    apply list_elem_of_omap in Hc as (conv & _ & Hk).
    now apply kept_of_messages in Hk.
  - rewrite H1. lia.
Qed.

Lemma main_keeps_conversations_with_messages_witness :
  exists conversations convs,
    select_conversations export_doc = Some conversations
    /\ py_iter conversations = Ok convs
    /\ all_convos (export_run) = omap (kept_of nfkc_latin 6) convs
    /\ Forall (fun c => convo_messages c <> []) (all_convos export_run)
    /\ (length (all_convos export_run) + skipped export_run = length convs)%nat.
Proof.
  apply (main_keeps_conversations_with_messages nfkc_latin isalnum_ascii 6
           export_doc export_run). reflexivity.
Defined.

(** X23: when [main] reaches the end of its loop, one markdown file was
    handed to [write_text] for each item of [all_convos], in order.  Its
    name is the sanitized title of the item with the ending [.md].  Its
    text is the heading, a number sign, a space, the title as it is and a
    line feed, followed for each message of the item, in order, by an
    empty line, the label in bold with a colon (the label of the user for
    the role [user], that of the assistant for any other role), an empty
    line, the text of the message and a line feed.  And [all_pairs] holds,
    in order, the pairs built from the messages of each item, each with
    the title of its item. *)
Theorem main_outputs_per_conversation
    (nfkc : str -> str) (isalnum : N -> bool) (fuel : nat) (data : json) (r : run) :
  main_core nfkc isalnum fuel data = Some (Completed r) ->
  written r
  = List.map (fun c =>
      (sanitize_filename isalnum (convo_title c) 120 ++ lit ".md",
       lit "# " ++ convo_title c ++ [LF]
       ++ flat_map (fun m =>
            [LF] ++ lit "**"
            ++ (if str_eqb (role m) (lit "user")
                then [0xF0; 0x178; 0x2018; 0xA4] ++ lit " You"
                else [0xF0; 0x178; 0xA4; 0x2013] ++ lit " Assistant")
            ++ lit "**:" ++ [LF; LF] ++ text m ++ [LF]) (convo_messages c)))
      (all_convos r)
  /\ all_pairs r
     = flat_map (fun c =>
         List.map (fun p => {| tp_pair := p; tp_title := convo_title c |})
           (messages_to_pairs (convo_messages c)))
         (all_convos r).
Proof.
  intros H.
  destruct (main_core_completed nfkc isalnum fuel data r H)
    as (conversations & convs & _ & _ & Hl).
  apply main_loop_inv in Hl as (H1 & H2 & H3 & _). simpl in H1, H2, H3.
  rewrite H1, H2, H3. split; [|reflexivity].
  apply map_ext. intros c. unfold file_of. now rewrite markdown_explicit.
Qed.

Lemma main_outputs_per_conversation_witness :
  main_core nfkc_latin isalnum_ascii 6 export_doc = Some (Completed export_run)
  /\ written export_run
     = [ (lit "Hello_World.md",
          lit "# Hello/World" ++ [LF; LF]
          ++ lit "**" ++ [0xF0; 0x178; 0x2018; 0xA4] ++ lit " You**:" ++ [LF; LF]
          ++ lit "Hi" ++ [LF; LF]
          ++ lit "**" ++ [0xF0; 0x178; 0xA4; 0x2013] ++ lit " Assistant**:" ++ [LF; LF]
          ++ lit "Hello!" ++ [LF]);
         (lit "Conversation.md",
          lit "# Conversation" ++ [LF; LF]
          ++ lit "**" ++ [0xF0; 0x178; 0x2018; 0xA4] ++ lit " You**:" ++ [LF; LF]
          ++ lit "no author" ++ [LF; LF]
          ++ lit "**" ++ [0xF0; 0x178; 0xA4; 0x2013] ++ lit " Assistant**:" ++ [LF; LF]
          ++ lit "heard" ++ [LF] ++ lit "seen" ++ [LF]) ]
  /\ written export_run
    = List.map (fun c =>
        (sanitize_filename isalnum_ascii (convo_title c) 120 ++ lit ".md",
         lit "# " ++ convo_title c ++ [LF]
         ++ flat_map (fun m =>
              [LF] ++ lit "**"
              ++ (if str_eqb (role m) (lit "user")
                  then [0xF0; 0x178; 0x2018; 0xA4] ++ lit " You"
                  else [0xF0; 0x178; 0xA4; 0x2013] ++ lit " Assistant")
              ++ lit "**:" ++ [LF; LF] ++ text m ++ [LF]) (convo_messages c)))
        (all_convos export_run)
    /\ all_pairs export_run
       = flat_map (fun c =>
           List.map (fun p => {| tp_pair := p; tp_title := convo_title c |})
             (messages_to_pairs (convo_messages c)))
           (all_convos export_run).
Proof.
  split; [reflexivity|]. split; [reflexivity|].
  apply (main_outputs_per_conversation nfkc_latin isalnum_ascii 6
           export_doc export_run). reflexivity.
Defined.

(** X24: when [main] reaches the end of its loop, every item of
    [all_pairs] has a prompt and a completion that are not empty and
    neither start nor end with whitespace, and carries the title of an item
    of [all_convos]. *)
Theorem main_pairs_clean
    (nfkc : str -> str) (isalnum : N -> bool) (fuel : nat) (data : json) (r : run) :
  main_core nfkc isalnum fuel data = Some (Completed r) ->
  Forall (fun tp =>
            prompt (tp_pair tp) <> [] /\ completion (tp_pair tp) <> []
            /\ stripped (prompt (tp_pair tp)) /\ stripped (completion (tp_pair tp))
            /\ exists c, c ∈ all_convos r /\ tp_title tp = convo_title c)
    (all_pairs r).
Proof.
  intros H.
  destruct (main_core_completed nfkc isalnum fuel data r H)
    as (conversations & convs & _ & _ & Hl).
  apply main_loop_inv in Hl as (H1 & H2 & _ & _). simpl in H1, H2.
  rewrite H2, <- H1. apply Forall_forall. intros tp Htp.
  apply list_elem_of_In, in_flat_map in Htp as (c & Hc & Htp).
  apply list_elem_of_In in Hc.
  unfold pairs_of in Htp. apply in_map_iff in Htp as (p & <- & Hp).
  apply list_elem_of_In in Hp. cbn [tp_pair tp_title].
  pose proof Hc as Hc'. rewrite H1 in Hc'.
  apply list_elem_of_omap in Hc' as (conv & _ & Hk).
  apply kept_of_messages in Hk as [He _].
  apply extract_texts_stripped in He.
  pose proof (fold_pairs_nonempty (convo_messages c) ([], []) (Forall_nil_2 _)) as Hn.
  pose proof (fold_pairs_stripped (convo_messages c) He [] []
                (Forall_nil_2 _) (Forall_nil_2 _)) as Hs.
  fold (messages_to_pairs (convo_messages c)) in Hn, Hs.
  rewrite Forall_forall in Hn, Hs.
  destruct (Hn p Hp) as [Hn1 Hn2]. destruct (Hs p Hp) as [Hs1 Hs2].
  repeat split; try assumption; try apply Hs1; try apply Hs2.
  now exists c.
Qed.

Lemma main_pairs_clean_witness :
  Forall (fun tp =>
            prompt (tp_pair tp) <> [] /\ completion (tp_pair tp) <> []
            /\ stripped (prompt (tp_pair tp)) /\ stripped (completion (tp_pair tp))
            /\ exists c, c ∈ all_convos export_run /\ tp_title tp = convo_title c)
    (all_pairs export_run).
Proof.
  apply (main_pairs_clean nfkc_latin isalnum_ascii 6 export_doc export_run).
  reflexivity.
Defined.

(** X25: on a document whose conversations are a list of dicts with fields
    of the expected types and with titles that are strings, falsy or
    missing, [main] reaches the end of its loop: it reports no invalid
    format and no exception leaves it. *)
Theorem main_completes_on_typed_document
    (nfkc : str -> str) (isalnum : N -> bool) (fuel : nat) (data : json)
    (convs : list json) :
  select_conversations data = Some (JArr convs) ->
  Forall (fun conv => conv_ok conv = true /\ title_ok conv = true
                      /\ (mapping_size conv < fuel)%nat) convs ->
  exists r, main_core nfkc isalnum fuel data = Some (Completed r).
Proof.
  intros Hs Hc. unfold main_core. rewrite Hs. cbn [py_iter].
  destruct (main_loop_ok nfkc isalnum fuel convs Hc empty_run) as [r ->].
  now exists r.
Qed.

Lemma main_completes_on_typed_document_witness :
  exists r, main_core nfkc_latin isalnum_ascii 6 typed_doc = Some (Completed r).
Proof.
  apply (main_completes_on_typed_document nfkc_latin isalnum_ascii 6 typed_doc
           (items_list typed_doc)).
  - reflexivity.
  - repeat (constructor;
            [split; [reflexivity | split; [reflexivity | vm_compute; lia]] |]).
    constructor.
Defined.

(** X26: a conversation that is no dict stops [main] with an
    [AttributeError], whatever comes after it and although the
    conversations before it were handled. *)
Theorem main_stops_at_conversation_without_get
    (nfkc : str -> str) (isalnum : N -> bool) (fuel : nat)
    (before : list json) (conv : json) (after : list json) (st : run) :
  main_loop nfkc isalnum fuel before empty_run = Some (Ok st) ->
  (forall kvs, conv <> JObj kvs) ->
  main_core nfkc isalnum fuel (JArr (before ++ conv :: after))
  = Some (Crashed AttributeError).
Proof.
  intros Hb Hc. unfold main_core. cbn [select_conversations py_iter].
  rewrite (main_loop_app nfkc isalnum fuel before (conv :: after) _ _ Hb).
  cbn [main_loop]. unfold main_step.
  destruct conv as [| | | | | |kvs]; try reflexivity.
  now destruct (Hc kvs).
Qed.

Lemma main_stops_at_conversation_without_get_witness :
  main_core nfkc_latin isalnum_ascii 6
    (JArr ([conv_hello] ++ JStr (lit "oops") :: [conv_sparse]))
  = Some (Crashed AttributeError).
Proof.
  apply (main_stops_at_conversation_without_get nfkc_latin isalnum_ascii 6
           [conv_hello] (JStr (lit "oops")) [conv_sparse]
           (keep isalnum_ascii empty_run (lit "Conversation")
              [ {| role := lit "user"; text := lit "Hi" |};
                {| role := lit "assistant"; text := lit "Hello!" |} ])).
  - reflexivity.
  - discriminate.
Defined.
